(** * httpx response processing: decoders and redirect engine

    A shallow embedding of [httpx/_decoders.py] (content decoders, the
    multi-encoding decoder, the text decoder and the line decoder) together
    with a model of the redirect engine exercised by
    [tests/client/test_redirects.py].

    Conventions.
    - Python [bytes] are [list byte]; Python [str] is [list ascii]; messages
      carried by exceptions are [string].
    - A method that mutates [self] and may raise becomes a function
      returning the new object state together with [Ok value] or
      [Raise exception]: the mutations made before the exception was raised
      stay visible, as they do in Python.
    - Engines the module only calls into ([zlib], [brotli], [codecs],
      [chardet]) are interfaces, given as type classes: every statement
      holds for any engine. *)

From Stdlib Require Import String Ascii ZArith Lia Bool Arith List.
From Stdlib Require Import Strings.Byte DecimalString.
Import ListNotations.

Definition bytes := list byte.
Definition str := list ascii.

(** Python exceptions, each with [str(exc)].  [ZlibError] is [zlib.error],
    [BrotliError] is [brotli.error].  The decoders turn the engines'
    exceptions into [ValueError(str(exc))]: that is the error kind the
    specification calls DecodingError. *)
Inductive exn : Type :=
| ValueError (msg : string)
| ZlibError (msg : string)
| BrotliError (msg : string)
| UnicodeDecodeError (msg : string)
| LookupError (msg : string)
| AssertionError
| RecursionError.

(** Outcome of a call: a returned value or a raised exception. *)
Inductive result (A : Type) : Type :=
| Ok (value : A)
| Raise (e : exn).
Arguments Ok {A} value.
Arguments Raise {A} e.

(** [sys.getrecursionlimit()], CPython's default. *)
Definition recursion_limit : nat := 1000.

(* ================================================================== *)
(** ** LineDecoder *)
(* ================================================================== *)

Module LineDecoder.

Definition LF : ascii := "010"%char.
Definition CR : ascii := "013"%char.
Definition NUL : ascii := "000"%char.

(** The object: one attribute, [self.buffer]. *)
Record t : Type := { buffer : str }.

(** [__init__] *)
Definition init : t := {| buffer := [] |}.

(** Truth value of a Python [str]: non-empty. *)
Definition truthy (s : str) : bool :=
  match s with
  | [] => false
  | _ :: _ => true
  end.

(** [s[-1] == "\r"], for a non-empty [s]. *)
Definition last_is_cr (s : str) : bool := (last s NUL =? CR)%char.

(** [s.endswith("\r")] *)
Definition endswith_cr (s : str) : bool := truthy s && last_is_cr s.

(** [text.startswith("\n")] *)
Definition startswith_lf (text : str) : bool :=
  match text with
  | c :: _ => (c =? LF)%char
  | [] => false
  end.

Definition is_lf (next_char : option ascii) : bool :=
  match next_char with
  | Some c => (c =? LF)%char
  | None => false
  end.

Definition is_not_none (next_char : option ascii) : bool :=
  match next_char with
  | Some _ => true
  | None => false
  end.

(** The body of [for idx in range(num_chars)], started at [idx] with [todo]
    indices left.  The result is the triple [(lines, self.buffer, text)] when
    the loop is left, by [break] or by exhausting the range. *)
Fixpoint for_idx (lines : list str) (buffer text : str) (idx todo : nat)
  : list str * str * str :=
  match todo with
  | 0 => (lines, buffer, text)
  | S todo' =>
      let num_chars := length text in
      let char := nth idx text NUL in
      let next_char :=
        if idx + 1 =? num_chars then None else Some (nth (idx + 1) text NUL) in
      if (char =? LF)%char then
        (lines ++ [buffer ++ firstn (idx + 1) text], [], skipn (idx + 1) text)
      else if (char =? CR)%char && is_lf next_char then
        (lines ++ [buffer ++ firstn idx text ++ [LF]], [], skipn (idx + 2) text)
      else if (char =? CR)%char && is_not_none next_char then
        (lines ++ [buffer ++ firstn idx text ++ [LF]], [], skipn (idx + 1) text)
      else if negb (is_not_none next_char) then
        (lines, buffer ++ text, [])
      else for_idx lines buffer text (S idx) todo'
  end.

(** [while text: ...].  [None] means the fuel ran out before [text] became
    empty. *)
Fixpoint while_text (fuel : nat) (lines : list str) (buffer text : str)
  : option (list str * str) :=
  match text with
  | [] => Some (lines, buffer)
  | _ :: _ =>
      match fuel with
      | 0 => None
      | S fuel' =>
          let '(lines', buffer', text') :=
            for_idx lines buffer text 0 (length text) in
          while_text fuel' lines' buffer' text'
      end
  end.

(** [decode(self, text)]: the returned lines and the new object. *)
Definition decode (self : t) (text : str) : option (list str * t) :=
  let lines : list str := [] in
  let '(lines, buffer, text) :=
    if truthy text && truthy (buffer self) && last_is_cr (buffer self) then
      if startswith_lf text then
        (lines ++ [removelast (buffer self) ++ [LF]], [], skipn 1 text)
      else
        (lines ++ [removelast (buffer self) ++ [LF]], [], text)
    else (lines, buffer self, text) in
  match while_text (length text) lines buffer text with
  | Some (lines, buffer) => Some (lines, {| buffer := buffer |})
  | None => None
  end.

(** [flush(self)] *)
Definition flush (self : t) : list str * t :=
  let lines :=
    if endswith_cr (buffer self) then [removelast (buffer self) ++ [LF]]
    else if truthy (buffer self) then [buffer self]
    else [] in
  (lines, {| buffer := [] |}).

(** Feeding a sequence of chunks, one [decode] call per chunk, and
    concatenating the returned lists. *)
Fixpoint decode_chunks (self : t) (chunks : list str) : option (list str * t) :=
  match chunks with
  | [] => Some ([], self)
  | chunk :: chunks' =>
      match decode self chunk with
      | None => None
      | Some (lines, self') =>
          match decode_chunks self' chunks' with
          | None => None
          | Some (lines', self'') => Some (lines ++ lines', self'')
          end
      end
  end.

(** All the lines a caller sees: the chunks, then [flush]. *)
Definition decode_then_flush (self : t) (chunks : list str) : option (list str) :=
  match decode_chunks self chunks with
  | None => None
  | Some (lines, self') => Some (lines ++ fst (flush self'))
  end.

End LineDecoder.

(** Reading of [LineDecoder] used in the proofs: the [for] loop as a
    recursion over the unread suffix, and the whole decoder as an automaton
    that reads one character at a time. *)
Module LineDecoderModel.
Import LineDecoder.

(** [for_idx] over [pre ++ suf] standing at index [length pre]. *)
Fixpoint scan (lines : list str) (buffer pre suf : str) : list str * str * str :=
  match suf with
  | [] => (lines, buffer, pre)
  | c :: suf' =>
      if (c =? LF)%char then (lines ++ [buffer ++ pre ++ [LF]], [], suf')
      else
        match suf' with
        | [] => (lines, buffer ++ pre ++ [c], [])
        | d :: suf'' =>
            if (c =? CR)%char then
              if (d =? LF)%char then (lines ++ [buffer ++ pre ++ [LF]], [], suf'')
              else (lines ++ [buffer ++ pre ++ [LF]], [], suf')
            else scan lines buffer (pre ++ [c]) suf'
        end
  end.

(** One character arriving while [pending] is buffered: the lines completed
    by it and the new pending text. *)
Definition feed_char (pending : str) (c : ascii) : list str * str :=
  if endswith_cr pending then
    if (c =? LF)%char then ([removelast pending ++ [LF]], [])
    else ([removelast pending ++ [LF]], [c])
  else if (c =? LF)%char then ([pending ++ [LF]], [])
  else ([], pending ++ [c]).

Fixpoint feed_chars (pending : str) (text : str) : list str * str :=
  match text with
  | [] => ([], pending)
  | c :: text' =>
      let '(lines, pending') := feed_char pending c in
      let '(lines', pending'') := feed_chars pending' text' in
      (lines ++ lines', pending'')
  end.

End LineDecoderModel.

(* ================================================================== *)
(** ** Content decoders *)
(* ================================================================== *)

(** The [zlib] module, as far as the decoders use it:
    [zlib.decompressobj(wbits)], [obj.decompress(data)] and [obj.flush()].
    Both methods mutate the object and may raise. *)
Class Zlib : Type := {
  decompressobj_t : Type;
  decompressobj : Z -> decompressobj_t;
  decompress : decompressobj_t -> bytes -> decompressobj_t * result bytes;
  zlib_flush : decompressobj_t -> decompressobj_t * result bytes
}.

(** [zlib.MAX_WBITS]; it is also the default [wbits] of
    [zlib.decompressobj()]. *)
Definition MAX_WBITS : Z := 15.

(** The [brotli] module: [brotli.Decompressor()], the method bound to
    [self._decompress] by [__init__] ([decompress] or [process]), and
    [finish] when the object has one. *)
Class Brotli : Type := {
  Decompressor_t : Type;
  Decompressor : Decompressor_t;
  _decompress : Decompressor_t -> bytes -> Decompressor_t * result bytes;
  finish : option (Decompressor_t -> Decompressor_t * result unit)
}.

(** [class ContentDecoder]: the interface of the decoders. *)
Module ContentDecoder.

Class class (D : Type) : Type := {
  decode : D -> bytes -> D * result bytes;
  flush : D -> D * result bytes
}.

(** An instance of some subclass: its state with its methods. *)
Record object : Type := {
  carrier : Type;
  methods : class carrier;
  self : carrier
}.

Definition call_decode (child : object) (data : bytes) : object * result bytes :=
  let '(self', r) := @decode _ (methods child) (self child) data in
  ({| carrier := carrier child; methods := methods child; self := self' |}, r).

Definition call_flush (child : object) : object * result bytes :=
  let '(self', r) := @flush _ (methods child) (self child) in
  ({| carrier := carrier child; methods := methods child; self := self' |}, r).

End ContentDecoder.

Module IdentityDecoder.

Record t : Type := { }.

Definition init : t := Build_t.

Definition decode (self : t) (data : bytes) : t * result bytes := (self, Ok data).

Definition flush (self : t) : t * result bytes := (self, Ok []).

End IdentityDecoder.

Module DeflateDecoder.
Section WithZlib.
Context {zlib : Zlib}.

Record t : Type := {
  first_attempt : bool;
  decompressor : decompressobj_t
}.

(** [__init__] *)
Definition init : t :=
  {| first_attempt := true; decompressor := decompressobj MAX_WBITS |}.

(** [decode(self, data)], with [depth] frames left before Python gives up
    with [RecursionError]: the method calls itself in its [except] branch. *)
Fixpoint decode_rec (depth : nat) (self : t) (data : bytes) : t * result bytes :=
  match depth with
  | 0 => (self, Raise RecursionError)
  | S depth' =>
      let was_first_attempt := first_attempt self in
      let self := {| first_attempt := false; decompressor := decompressor self |} in
      match decompress (decompressor self) data with
      | (d, Ok out) =>
          ({| first_attempt := first_attempt self; decompressor := d |}, Ok out)
      | (d, Raise (ZlibError exc)) =>
          let self := {| first_attempt := first_attempt self; decompressor := d |} in
          if was_first_attempt then
            let self :=
              {| first_attempt := first_attempt self;
                 decompressor := decompressobj (- MAX_WBITS) |} in
            decode_rec depth' self data
          else (self, Raise (ValueError exc))
      | (d, Raise e) =>
          ({| first_attempt := first_attempt self; decompressor := d |}, Raise e)
      end
  end.

Definition decode (self : t) (data : bytes) : t * result bytes :=
  decode_rec recursion_limit self data.

Definition flush (self : t) : t * result bytes :=
  match zlib_flush (decompressor self) with
  | (d, Ok out) =>
      ({| first_attempt := first_attempt self; decompressor := d |}, Ok out)
  | (d, Raise (ZlibError exc)) =>
      ({| first_attempt := first_attempt self; decompressor := d |},
       Raise (ValueError exc))
  | (d, Raise e) =>
      ({| first_attempt := first_attempt self; decompressor := d |}, Raise e)
  end.

(** Used in the statements: one [decompress] call on [d] whose failure is
    final -- the object is left with [first_attempt] cleared and the
    decompressor as the call left it, and a [zlib.error] becomes a
    [ValueError]. *)
Definition final_attempt (d : decompressobj_t) (data : bytes) : t * result bytes :=
  match decompress d data with
  | (d', Ok out) => ({| first_attempt := false; decompressor := d' |}, Ok out)
  | (d', Raise (ZlibError exc)) =>
      ({| first_attempt := false; decompressor := d' |}, Raise (ValueError exc))
  | (d', Raise e) => ({| first_attempt := false; decompressor := d' |}, Raise e)
  end.

(** A sequence of [decode] calls, stopping at the first that raises: the
    outputs so far, the object, and the exception if there was one. *)
Fixpoint decode_chunks (self : t) (chunks : list bytes)
  : list bytes * t * option exn :=
  match chunks with
  | [] => ([], self, None)
  | chunk :: chunks' =>
      match decode self chunk with
      | (self', Ok out) =>
          let '(outs, self'', e) := decode_chunks self' chunks' in
          (out :: outs, self'', e)
      | (self', Raise e) => ([], self', Some e)
      end
  end.

(** The object after a sequence of [decode] calls, the caller going on
    after the calls that raised. *)
Definition after_chunks (self : t) (chunks : list bytes) : t :=
  fold_left (fun self chunk => fst (decode self chunk)) chunks self.

End WithZlib.
End DeflateDecoder.

Module GZipDecoder.
Section WithZlib.
Context {zlib : Zlib}.

Record t : Type := { decompressor : decompressobj_t }.

Definition init : t := {| decompressor := decompressobj (Z.lor MAX_WBITS 16) |}.

Definition decode (self : t) (data : bytes) : t * result bytes :=
  match decompress (decompressor self) data with
  | (d, Ok out) => ({| decompressor := d |}, Ok out)
  | (d, Raise (ZlibError exc)) => ({| decompressor := d |}, Raise (ValueError exc))
  | (d, Raise e) => ({| decompressor := d |}, Raise e)
  end.

Definition flush (self : t) : t * result bytes :=
  match zlib_flush (decompressor self) with
  | (d, Ok out) => ({| decompressor := d |}, Ok out)
  | (d, Raise (ZlibError exc)) => ({| decompressor := d |}, Raise (ValueError exc))
  | (d, Raise e) => ({| decompressor := d |}, Raise e)
  end.

End WithZlib.
End GZipDecoder.

Module BrotliDecoder.
Section WithBrotli.
Context {brotli : Brotli}.

Record t : Type := {
  decompressor : Decompressor_t;
  seen_data : bool
}.

(** [__init__], when the [brotli] module could be imported (otherwise it
    raises [ImportError] and there is no object). *)
Definition init : t := {| decompressor := Decompressor; seen_data := false |}.

Definition decode (self : t) (data : bytes) : t * result bytes :=
  match data with
  | [] => (self, Ok [])
  | _ :: _ =>
      let self := {| decompressor := decompressor self; seen_data := true |} in
      match _decompress (decompressor self) data with
      | (d, Ok out) => ({| decompressor := d; seen_data := seen_data self |}, Ok out)
      | (d, Raise (BrotliError exc)) =>
          ({| decompressor := d; seen_data := seen_data self |}, Raise (ValueError exc))
      | (d, Raise e) => ({| decompressor := d; seen_data := seen_data self |}, Raise e)
      end
  end.

Definition flush (self : t) : t * result bytes :=
  if negb (seen_data self) then (self, Ok [])
  else
    match finish with
    | Some finish =>
        match finish (decompressor self) with
        | (d, Ok _) => ({| decompressor := d; seen_data := seen_data self |}, Ok [])
        | (d, Raise (BrotliError exc)) =>
            ({| decompressor := d; seen_data := seen_data self |},
             Raise (ValueError exc))
        | (d, Raise e) =>
            ({| decompressor := d; seen_data := seen_data self |}, Raise e)
        end
    | None => (self, Ok [])
    end.

End WithBrotli.
End BrotliDecoder.

Module MultiDecoder.
Import ContentDecoder.

Record t : Type := { children : list object }.

(** [__init__(self, children)]: [self.children = list(reversed(children))]. *)
Definition init (children : list object) : t := {| children := rev children |}.

(** [for child in self.children: data = child.decode(data)], from the given
    position in the list; the children come back as the calls left them. *)
Fixpoint decode_loop (children : list object) (data : bytes)
  : list object * result bytes :=
  match children with
  | [] => ([], Ok data)
  | child :: rest =>
      match call_decode child data with
      | (child', Ok data') =>
          let '(rest', r) := decode_loop rest data' in (child' :: rest', r)
      | (child', Raise e) => (child' :: rest, Raise e)
      end
  end.

Definition decode (self : t) (data : bytes) : t * result bytes :=
  let '(children', r) := decode_loop (children self) data in
  ({| children := children' |}, r).

(** [for child in self.children: data = child.decode(data) + child.flush()] *)
Fixpoint flush_loop (children : list object) (data : bytes)
  : list object * result bytes :=
  match children with
  | [] => ([], Ok data)
  | child :: rest =>
      match call_decode child data with
      | (child', Ok decoded) =>
          match call_flush child' with
          | (child'', Ok flushed) =>
              let '(rest', r) := flush_loop rest (decoded ++ flushed) in
              (child'' :: rest', r)
          | (child'', Raise e) => (child'' :: rest, Raise e)
          end
      | (child', Raise e) => (child' :: rest, Raise e)
      end
  end.

Definition flush (self : t) : t * result bytes :=
  let data : bytes := [] in
  let '(children', r) := flush_loop (children self) data in
  ({| children := children' |}, r).

End MultiDecoder.

(** The subclasses as implementations of the interface. *)
#[export] Instance IdentityDecoder_class : ContentDecoder.class IdentityDecoder.t :=
  {| ContentDecoder.decode := IdentityDecoder.decode;
     ContentDecoder.flush := IdentityDecoder.flush |}.

#[export] Instance DeflateDecoder_class {zlib : Zlib}
  : ContentDecoder.class DeflateDecoder.t :=
  {| ContentDecoder.decode := DeflateDecoder.decode;
     ContentDecoder.flush := DeflateDecoder.flush |}.

#[export] Instance GZipDecoder_class {zlib : Zlib}
  : ContentDecoder.class GZipDecoder.t :=
  {| ContentDecoder.decode := GZipDecoder.decode;
     ContentDecoder.flush := GZipDecoder.flush |}.

#[export] Instance BrotliDecoder_class {brotli : Brotli}
  : ContentDecoder.class BrotliDecoder.t :=
  {| ContentDecoder.decode := BrotliDecoder.decode;
     ContentDecoder.flush := BrotliDecoder.flush |}.

#[export] Instance MultiDecoder_class : ContentDecoder.class MultiDecoder.t :=
  {| ContentDecoder.decode := MultiDecoder.decode;
     ContentDecoder.flush := MultiDecoder.flush |}.

(* ================================================================== *)
(** ** TextDecoder *)
(* ================================================================== *)

(** The [codecs] module: [codecs.getincrementaldecoder(encoding)()] (which
    raises [LookupError] for an unknown name), the incremental decoder's
    [decode(input, final)], and [bytes.decode(encoding)]. *)
Class Codecs : Type := {
  IncrementalDecoder : Type;
  getincrementaldecoder : string -> result IncrementalDecoder;
  incremental_decode :
    IncrementalDecoder -> bytes -> bool -> IncrementalDecoder * result str;
  bytes_decode : bytes -> string -> result str
}.

(** [chardet.universaldetector.UniversalDetector]: the constructor, [feed],
    [close] and [result["encoding"]]. *)
Class Chardet : Type := {
  UniversalDetector_t : Type;
  UniversalDetector : UniversalDetector_t;
  feed : UniversalDetector_t -> bytes -> UniversalDetector_t;
  close : UniversalDetector_t -> UniversalDetector_t;
  result_encoding : UniversalDetector_t -> option string
}.

Module TextDecoder.
Section WithEngines.
Context {codecs : Codecs} {chardet : Chardet}.

Record t : Type := {
  decoder : option IncrementalDecoder;
  detector : UniversalDetector_t;
  buffer : option bytes
}.

(** [__init__(self, encoding=None)].  An [IncrementalDecoder] object is
    truthy, so [self.buffer] is [None] exactly when [self.decoder] is set. *)
Definition init (encoding : option string) : result t :=
  match encoding with
  | None =>
      Ok {| decoder := None; detector := UniversalDetector; buffer := Some [] |}
  | Some encoding =>
      match getincrementaldecoder encoding with
      | Ok d =>
          Ok {| decoder := Some d; detector := UniversalDetector; buffer := None |}
      | Raise e => Raise e
      end
  end.

(** [_detector_result(self)] *)
Definition _detector_result (self : t) : t * result string :=
  let self :=
    {| decoder := decoder self;
       detector := close (detector self);
       buffer := buffer self |} in
  match result_encoding (detector self) with
  | None | Some EmptyString =>
      (self, Raise (ValueError "Unable to determine encoding of content"))
  | Some result => (self, Ok result)
  end.

(** [except UnicodeDecodeError as exc: raise ValueError(str(exc))]; any
    other exception passes through. *)
Definition except_UnicodeDecodeError {A : Type} (r : result A) : result A :=
  match r with
  | Raise (UnicodeDecodeError exc) => Raise (ValueError exc)
  | _ => r
  end.

(** [decode(self, data)] *)
Definition decode (self : t) (data : bytes) : t * result str :=
  match decoder self with
  | Some d =>
      let '(d, text) := incremental_decode d data false in
      ({| decoder := Some d; detector := detector self; buffer := buffer self |},
       except_UnicodeDecodeError text)
  | None =>
      match buffer self with
      | None => (self, Raise AssertionError)
      | Some buffer0 =>
          let text : str := [] in
          let self :=
            {| decoder := decoder self;
               detector := feed (detector self) data;
               buffer := Some buffer0 |} in
          let self :=
            {| decoder := decoder self;
               detector := detector self;
               buffer := Some (buffer0 ++ data) |} in
          if 4096 <=? length (buffer0 ++ data) then
            match _detector_result self with
            | (self, Raise e) => (self, except_UnicodeDecodeError (Raise e))
            | (self, Ok encoding) =>
                match getincrementaldecoder encoding with
                | Raise e => (self, except_UnicodeDecodeError (Raise e))
                | Ok d =>
                    let self :=
                      {| decoder := Some d;
                         detector := detector self;
                         buffer := buffer self |} in
                    match incremental_decode d (buffer0 ++ data) false with
                    | (d, Ok text) =>
                        ({| decoder := Some d;
                            detector := detector self;
                            buffer := None |}, Ok text)
                    | (d, Raise e) =>
                        ({| decoder := Some d;
                            detector := detector self;
                            buffer := buffer self |},
                         except_UnicodeDecodeError (Raise e))
                    end
                end
            end
          else (self, Ok text)
      end
  end.

(** [flush(self)] *)
Definition flush (self : t) : t * result str :=
  match decoder self with
  | None =>
      match buffer self with
      | None => (self, Raise AssertionError)
      | Some buffer0 =>
          if length buffer0 =? 0 then (self, Ok [])
          else
            match _detector_result self with
            | (self, Raise e) => (self, except_UnicodeDecodeError (Raise e))
            | (self, Ok encoding) =>
                (self, except_UnicodeDecodeError (bytes_decode buffer0 encoding))
            end
      end
  | Some d =>
      let '(d, text) := incremental_decode d [] true in
      ({| decoder := Some d; detector := detector self; buffer := buffer self |},
       except_UnicodeDecodeError text)
  end.

(** A sequence of [decode] calls, stopping at the first that raises: the
    texts returned so far, the object, and the exception if there was one. *)
Fixpoint decode_chunks (self : t) (chunks : list bytes)
  : list str * t * option exn :=
  match chunks with
  | [] => ([], self, None)
  | chunk :: chunks' =>
      match decode self chunk with
      | (self', Ok text) =>
          let '(texts, self'', e) := decode_chunks self' chunks' in
          (text :: texts, self'', e)
      | (self', Raise e) => ([], self', Some e)
      end
  end.

(** The object while the encoding is undetermined, and as [__init__] leaves
    it when no encoding is declared. *)
Definition undetermined (detector : UniversalDetector_t) (buffer : bytes) : t :=
  {| decoder := None; detector := detector; buffer := Some buffer |}.

Definition fresh : t := undetermined UniversalDetector [].

(** "Exactly one of [self.decoder] and [self.buffer] is not [None]". *)
Definition exactly_one (self : t) : bool :=
  match decoder self, buffer self with
  | Some _, None => true
  | None, Some _ => true
  | _, _ => false
  end.

End WithEngines.
End TextDecoder.

(* ================================================================== *)
(** ** Redirect engine *)
(* ================================================================== *)

(** The client code that follows redirects is not part of the sources at
    hand; only its test-suite is.  The definitions of this part follow the
    specification's section on the redirect engine, step by step. *)

Module Headers.

(** Modelled from the spec: the header mapping of requests and responses
    (the class is missing from the sources) -- case-insensitive names,
    several values per name, insertion order kept. *)
Definition t : Type := list (string * string).

(** Modelled from the spec: header names are case-insensitive; the
    comparison of two names (missing from the sources) goes through their
    lower-case forms. *)
Definition lower_ascii (c : ascii) : ascii :=
  let n := nat_of_ascii c in
  if (65 <=? n) && (n <=? 90) then ascii_of_nat (n + 32) else c.

(** Modelled from the spec: the lower-case form of a header name (missing
    from the sources). *)
Fixpoint lower (s : string) : string :=
  match s with
  | EmptyString => EmptyString
  | String c s' => String (lower_ascii c) (lower s')
  end.

(** Modelled from the spec: equality of header names (missing from the
    sources), case-insensitive. *)
Definition same_name (a b : string) : bool := (lower a =? lower b)%string.

(** Modelled from the spec: all the values of a header (the lookup is
    missing from the sources), in insertion order. *)
Definition get_list (name : string) (hs : t) : list string :=
  map snd (filter (fun h => same_name (fst h) name) hs).

(** Modelled from the spec: the first value of a header (the lookup is
    missing from the sources), when it is present. *)
Definition get (name : string) (hs : t) : option string :=
  hd_error (get_list name hs).

(** Modelled from the spec: removal of a header (missing from the
    sources), all its values at once. *)
Definition remove (name : string) (hs : t) : t :=
  filter (fun h => negb (same_name (fst h) name)) hs.

(** Modelled from the spec: a header set to one value (missing from the
    sources), in place of the values it had. *)
Definition set (name value : string) (hs : t) : t :=
  remove name hs ++ [(name, value)].

End Headers.

Module URL.

(** Modelled from the spec: the target URL of a request (the URL class is
    missing from the sources) -- scheme, host, port, path, query,
    fragment. *)
Record t : Type := {
  scheme : string;
  host : string;
  port : option N;
  path : string;
  query : string;
  fragment : string
}.

(** Modelled from the spec: the origin of a URL (missing from the sources),
    the triple scheme, host, port. *)
Definition origin (u : t) : string * string * option N :=
  (scheme u, host u, port u).

(** Modelled from the spec: equality of two ports (missing from the
    sources), absent or present. *)
Definition option_N_eqb (a b : option N) : bool :=
  match a, b with
  | Some x, Some y => (x =? y)%N
  | None, None => true
  | _, _ => false
  end.

(** Modelled from the spec: the origin-equality test (missing from the
    sources) -- same scheme, same host, same port. *)
Definition same_origin (a b : t) : bool :=
  (scheme a =? scheme b)%string && (host a =? host b)%string
  && option_N_eqb (port a) (port b).

(** Modelled from the spec: a URL with another fragment (missing from the
    sources), for the fragment carry-over of step 2. *)
Definition with_fragment (u : t) (fragment : string) : t :=
  {| scheme := scheme u; host := host u; port := port u;
     path := path u; query := query u; fragment := fragment |}.

End URL.

Module Request.

(** Modelled from the spec: the body of a request (missing from the
    sources) -- empty, a fixed byte buffer, or a one-shot byte-producing
    sequence. *)
Inductive Body : Type :=
| Empty
| Fixed (content : bytes)
| OneShot (chunks : list bytes).

(** Modelled from the spec: the request (its class is missing from the
    sources) -- method token, target URL, headers, body. *)
Record t : Type := {
  method : string;
  url : URL.t;
  headers : Headers.t;
  body : Body
}.

End Request.

Module Response.

(** Modelled from the spec: the response (its class is missing from the
    sources) -- status code, headers, body, the request that produced it and
    the responses that preceded it in the chain. *)
#[warnings="-register-all"]
Inductive t : Type := Build {
  status_code : Z;
  headers : Headers.t;
  content : bytes;
  request : Request.t;
  history : list t
}.

End Response.

(** Modelled from the spec: the URL parser, an external collaborator --
    a [Location] value resolved against the URL of the current request;
    [None] when the value cannot be parsed. *)
Class UrlParser : Type := {
  urljoin : URL.t -> string -> option URL.t
}.

(** Modelled from the spec: the cookie jar, an external collaborator, with
    the two operations of the specification's interface section.  An empty
    header value means that no cookie applies. *)
Class CookieJar : Type := {
  Jar : Type;
  cookies_for : Jar -> string * string * option N -> string;
  apply_set_cookie : Jar -> string * string * option N -> list string -> Jar
}.

(** Modelled from the spec: what the transport hands back for a request,
    or the message of a transport error. *)
Record Reply : Type := {
  reply_status : Z;
  reply_headers : Headers.t;
  reply_content : bytes
}.

(** Modelled from the spec: the transport, an external collaborator --
    [send(Request) -> Response], or a transport error. *)
Definition Transport : Type := Request.t -> string + Reply.

Module RedirectEngine.

(** Modelled from the spec: the error kinds of the redirect engine. *)
Inductive error : Type :=
| UnsupportedProtocol (scheme : string)
| InvalidRedirectLocation
| RequestBodyUnavailable
| TooManyRedirects
| TransportError (msg : string).

(** Modelled from the spec: what an operation of the engine ends with, a
    value or one of the error kinds. *)
Inductive outcome (A : Type) : Type :=
| Success (a : A)
| Failure (e : error).
Arguments Success {A} a.
Arguments Failure {A} e.

(** Modelled from the spec: the policy -- whether redirects are followed,
    and the maximum redirect count. *)
Record Policy : Type := {
  allow_redirects : bool;
  max_redirects : nat
}.

(** Modelled from the spec: step 1, classification.  A response is a
    redirect candidate iff its status code is one of 301, 302, 303, 307, 308
    and it has a [Location] header; the result is that header's value. *)
Definition redirect_location (status : Z) (headers : Headers.t) : option string :=
  if existsb (Z.eqb status) [301; 302; 303; 307; 308]%Z
  then Headers.get "Location" headers
  else None.

(** Modelled from the spec: step 2, the test for non-ASCII bytes in a
    [Location] value. *)
Definition is_ascii (s : string) : bool :=
  forallb (fun c => nat_of_ascii c <? 128) (list_ascii_of_string s).

(** Modelled from the spec: step 3, the allow-list of schemes. *)
Definition allowed_scheme (scheme : string) : bool :=
  (scheme =? "http")%string || (scheme =? "https")%string.

(** Modelled from the spec: step 4, the method column of the table. *)
Definition redirect_method (status : Z) (method : string) : string :=
  if (status =? 301)%Z || (status =? 302)%Z then
    if (method =? "POST")%string then "GET"%string else method
  else if (status =? 303)%Z then
    if (method =? "HEAD")%string then method else "GET"%string
  else method.

(** Modelled from the spec: step 4, the body column of the table -- whether
    the body is dropped. *)
Definition body_dropped (status : Z) (method : string) : bool :=
  if (status =? 301)%Z || (status =? 302)%Z then
    negb (redirect_method status method =? method)%string
    && (redirect_method status method =? "GET")%string
  else if (status =? 303)%Z then true
  else false.

(** Modelled from the spec: step 4, the body of the follow-up request; a
    one-shot body that has to be kept cannot be sent again. *)
Definition redirect_body (status : Z) (method : string) (body : Request.Body)
  : outcome Request.Body :=
  if body_dropped status method then Success Request.Empty
  else
    match body with
    | Request.OneShot _ => Failure RequestBodyUnavailable
    | _ => Success body
    end.

(** Modelled from the spec: step 5, header adjustment. *)
Definition redirect_headers (dropped cross_origin : bool) (headers : Headers.t)
  : Headers.t :=
  let headers :=
    if dropped then
      Headers.remove "Transfer-Encoding"
        (Headers.remove "Content-Type" (Headers.remove "Content-Length" headers))
    else headers in
  if cross_origin then
    Headers.remove "Cookie" (Headers.remove "Authorization" headers)
  else headers.

Section WithCollaborators.
Context {parser : UrlParser} {cookiejar : CookieJar}.

(** Modelled from the spec: step 2, the target URL -- no non-ASCII bytes,
    resolution against the URL of the request, and the request's fragment
    when the location has none. *)
Definition redirect_url (request : Request.t) (location : string)
  : outcome URL.t :=
  if negb (is_ascii location) then Failure InvalidRedirectLocation
  else
    match urljoin (Request.url request) location with
    | None => Failure InvalidRedirectLocation
    | Some url =>
        if (URL.fragment url =? "")%string
        then Success (URL.with_fragment url (URL.fragment (Request.url request)))
        else Success url
    end.

(** Modelled from the spec: step 6, first half -- the [Cookie] header of a
    request about to be dispatched is taken from the jar. *)
Definition merge_cookies (jar : Jar) (url : URL.t) (headers : Headers.t)
  : Headers.t :=
  match cookies_for jar (URL.origin url) with
  | EmptyString => headers
  | value => Headers.set "Cookie" value headers
  end.

(** Modelled from the spec: steps 5 and 6 -- the cookies of a follow-up
    request are resolved again, for every target: the [Cookie] header of the
    original request is dropped, and the header is set from the jar when the
    jar has cookies for the target. *)
Definition resolve_cookies (jar : Jar) (url : URL.t) (headers : Headers.t)
  : Headers.t :=
  merge_cookies jar url (Headers.remove "Cookie" headers).

(** Modelled from the spec: steps 2 to 6, the follow-up request for a
    redirect response with the given status and [Location]. *)
Definition build_redirect_request (jar : Jar) (request : Request.t)
  (status : Z) (location : string) : outcome Request.t :=
  match redirect_url request location with
  | Failure e => Failure e
  | Success url =>
      if negb (allowed_scheme (URL.scheme url))
      then Failure (UnsupportedProtocol (URL.scheme url))
      else
        let method := redirect_method status (Request.method request) in
        match redirect_body status (Request.method request) (Request.body request) with
        | Failure e => Failure e
        | Success body =>
            let headers :=
              redirect_headers
                (body_dropped status (Request.method request))
                (negb (URL.same_origin url (Request.url request)))
                (Request.headers request) in
            Success {| Request.method := method;
                       Request.url := url;
                       Request.headers := resolve_cookies jar url headers;
                       Request.body := body |}
        end
  end.

(** Modelled from the spec: the position in a chain -- the request to send
    next, the jar, and the responses received so far. *)
Record position : Type := {
  request : Request.t;
  jar : Jar;
  history : list Response.t
}.

(** Modelled from the spec: how one exchange ends -- a terminal response,
    an error, or a redirect that was followed. *)
Inductive advance_result : Type :=
| Final (response : Response.t) (jar : Jar)
| Failed (e : error)
| Redirected (response : Response.t) (next : position).

(** Modelled from the spec: one exchange with the transport followed by
    classification and rewrite (steps 1 to 6 and 8).  The jar is updated
    from [Set-Cookie] once the response is in; with redirect-following
    disabled a redirect response is returned as it is. *)
Definition advance (policy : Policy) (transport : Transport) (p : position)
  : advance_result :=
  match transport (request p) with
  | inl msg => Failed (TransportError msg)
  | inr reply =>
      let jar' :=
        apply_set_cookie (jar p) (URL.origin (Request.url (request p)))
          (Headers.get_list "Set-Cookie" (reply_headers reply)) in
      let response :=
        Response.Build (reply_status reply) (reply_headers reply)
          (reply_content reply) (request p) (history p) in
      match redirect_location (reply_status reply) (reply_headers reply) with
      | None => Final response jar'
      | Some location =>
          if negb (allow_redirects policy) then Final response jar'
          else
            match build_redirect_request jar' (request p) (reply_status reply) location with
            | Failure e => Failed e
            | Success next =>
                Redirected response
                  {| request := next; jar := jar';
                     history := history p ++ [response] |}
            end
      end
  end.

(** Modelled from the spec: the state of the engine, a position and the
    redirect counter. *)
Record state : Type := {
  current : position;
  counter : nat
}.

(** Modelled from the spec: how one step of the engine ends. *)
Inductive step_result : Type :=
| Terminal (response : Response.t) (jar : Jar)
| Aborted (e : error)
| Continue (st : state).

(** Modelled from the spec: step 7 -- each successful classification and
    rewrite increments the counter; exceeding the maximum aborts. *)
Definition step (policy : Policy) (transport : Transport) (st : state)
  : step_result :=
  match advance policy transport (current st) with
  | Final response jar' => Terminal response jar'
  | Failed e => Aborted e
  | Redirected _ next =>
      let counter' := S (counter st) in
      if max_redirects policy <? counter' then Aborted TooManyRedirects
      else Continue {| current := next; counter := counter' |}
  end.

(** Modelled from the spec: the initial position -- the original request
    with its cookies from the jar, and no history. *)
Definition initial (jar0 : Jar) (request0 : Request.t) : position :=
  let url := Request.url request0 in
  {| request :=
       {| Request.method := Request.method request0;
          Request.url := url;
          Request.headers := merge_cookies jar0 url (Request.headers request0);
          Request.body := Request.body request0 |};
     jar := jar0;
     history := [] |}.

(** Modelled from the spec: the loop of the engine, one [step] after the
    other; [None] means that the fuel ran out. *)
Fixpoint run (fuel : nat) (policy : Policy) (transport : Transport) (st : state)
  : option (outcome (Response.t * Jar)) :=
  match fuel with
  | 0 => None
  | S fuel' =>
      match step policy transport st with
      | Terminal response jar' => Some (Success (response, jar'))
      | Aborted e => Some (Failure e)
      | Continue st' => run fuel' policy transport st'
      end
  end.

(** Modelled from the spec: a top-level request.  The scheme check applies
    to the original request too; the initial state has no history and a
    counter of 0.  No more than [max_redirects + 1] exchanges can take
    place, which bounds the loop. *)
Definition send (policy : Policy) (transport : Transport) (jar0 : Jar)
  (request0 : Request.t) : option (outcome (Response.t * Jar)) :=
  let url := Request.url request0 in
  if negb (allowed_scheme (URL.scheme url))
  then Some (Failure (UnsupportedProtocol (URL.scheme url)))
  else
    run (S (max_redirects policy)) policy transport
      {| current := initial jar0 request0; counter := 0 |}.

(** Modelled from the spec: the redirect chain of the glossary, whatever
    the counter says -- [chain n p q] when
    [n] successive classifications and rewrites lead from position [p] to
    position [q]. *)
Inductive chain (policy : Policy) (transport : Transport)
  : nat -> position -> position -> Prop :=
| chain_0 (p : position) : chain policy transport 0 p p
| chain_S (n : nat) (p q r : position) (response : Response.t) :
    advance policy transport p = Redirected response q ->
    chain policy transport n q r ->
    chain policy transport (S n) p r.

End WithCollaborators.

(** Proves one link of a [chain] goal by running the exchange. *)
Ltac chain_step :=
  lazymatch goal with
  | |- chain ?policy ?transport (S ?n) ?p _ =>
      let a := eval vm_compute in (advance policy transport p) in
      lazymatch a with
      | Redirected ?response ?q =>
          apply (chain_S policy transport n p q _ response);
          [vm_compute; reflexivity|]
      end
  end.

End RedirectEngine.

(* ================================================================== *)
(** ** Stand-ins for the engines *)
(* ================================================================== *)

(** Small engines on which the statements can be run.  They play the role
    the mock transport plays in the test-suite. *)
Module Doubles.

(** A stand-in for [zlib]: a framed stream is the header byte 0x78 followed
    by the payload, a raw stream ([wbits < 0]) is the payload alone, and the
    payload is stored uncompressed.  The object remembers its [wbits], whether
    the header went by, and how many times [decompress] was called on it. *)
Record toy_decompressobj : Type := {
  wbits : Z;
  header_seen : bool;
  calls : nat
}.

Definition toy_decompress (o : toy_decompressobj) (data : bytes)
  : toy_decompressobj * result bytes :=
  let o' := {| wbits := wbits o; header_seen := header_seen o;
               calls := S (calls o) |} in
  if (wbits o <? 0)%Z || header_seen o then (o', Ok data)
  else
    match data with
    | [] => (o', Ok [])
    | x78 :: payload =>
        ({| wbits := wbits o; header_seen := true; calls := S (calls o) |},
         Ok payload)
    | _ :: _ =>
        (o', Raise (ZlibError
                      "Error -3 while decompressing data: incorrect header check"))
    end.

#[export] Instance toy_zlib : Zlib := {|
  decompressobj_t := toy_decompressobj;
  decompressobj := fun w => {| wbits := w; header_seen := false; calls := 0 |};
  decompress := toy_decompress;
  zlib_flush := fun o => (o, Ok [])
|}.

(** A stand-in for [codecs], limited to the 7-bit characters: "ascii", and
    "utf-8-sig" which drops a leading byte order mark.  Any other byte is a
    [UnicodeDecodeError]; any other name a [LookupError]. *)
Record toy_decoder : Type := {
  sig : bool;
  started : bool
}.

Definition BOM_UTF8 : bytes := [xef; xbb; xbf].

Fixpoint startswith (data prefix : bytes) : bool :=
  match prefix, data with
  | [], _ => true
  | p :: prefix', b :: data' => Byte.eqb p b && startswith data' prefix'
  | _ :: _, [] => false
  end.

Fixpoint toy_chars (data : bytes) : result str :=
  match data with
  | [] => Ok []
  | b :: data' =>
      if (Byte.to_N b <? 128)%N then
        match toy_chars data' with
        | Ok text => Ok (ascii_of_byte b :: text)
        | Raise e => Raise e
        end
      else Raise (UnicodeDecodeError "codec can't decode byte: invalid start byte")
  end.

Definition toy_incremental_decode (d : toy_decoder) (input : bytes) (final : bool)
  : toy_decoder * result str :=
  match input with
  | [] => (d, Ok [])
  | _ :: _ =>
      let input' :=
        if sig d && negb (started d) && startswith input BOM_UTF8
        then skipn 3 input else input in
      ({| sig := sig d; started := true |}, toy_chars input')
  end.

Definition toy_getincrementaldecoder (encoding : string) : result toy_decoder :=
  if (encoding =? "ascii")%string then Ok {| sig := false; started := false |}
  else if (encoding =? "utf-8-sig")%string then Ok {| sig := true; started := false |}
  else Raise (LookupError ("unknown encoding: " ++ encoding)).

Definition toy_bytes_decode (data : bytes) (encoding : string) : result str :=
  match toy_getincrementaldecoder encoding with
  | Ok d => snd (toy_incremental_decode d data true)
  | Raise e => Raise e
  end.

#[export] Instance toy_codecs : Codecs := {|
  IncrementalDecoder := toy_decoder;
  getincrementaldecoder := toy_getincrementaldecoder;
  incremental_decode := toy_incremental_decode;
  bytes_decode := toy_bytes_decode
|}.

(** A stand-in for [chardet]: data that starts with a byte order mark is
    reported as "utf-8-sig" at once, whatever follows; anything else is
    reported as "ascii" once the detector is closed; without data there is
    no guess. *)
Record toy_detector : Type := {
  got_data : bool;
  bom : bool;
  closed : bool
}.

Definition toy_feed (d : toy_detector) (data : bytes) : toy_detector :=
  match data with
  | [] => d
  | _ :: _ =>
      {| got_data := true;
         bom := bom d || (negb (got_data d) && startswith data BOM_UTF8);
         closed := closed d |}
  end.

#[export] Instance toy_chardet : Chardet := {|
  UniversalDetector_t := toy_detector;
  UniversalDetector := {| got_data := false; bom := false; closed := false |};
  feed := toy_feed;
  close := fun d => {| got_data := got_data d; bom := bom d; closed := true |};
  result_encoding := fun d =>
    if bom d then Some "utf-8-sig"%string
    else if closed d && got_data d then Some "ascii"%string
    else None
|}.

(** A stand-in for the URL parser.  It knows absolute references
    [scheme://host/path?query#fragment], protocol-relative ones
    [//host/path] and absolute paths [/path?query]; it knows no port. *)
Fixpoint split_on (c : ascii) (s : string) : string * option string :=
  match s with
  | EmptyString => (EmptyString, None)
  | String a s' =>
      if (a =? c)%char then (EmptyString, Some s')
      else let '(before, after) := split_on c s' in (String a before, after)
  end.

Definition or_empty (s : option string) : string :=
  match s with
  | Some s => s
  | None => EmptyString
  end.

Fixpoint drop (n : nat) (s : string) : string :=
  match n, s with
  | S n', String _ s' => drop n' s'
  | _, _ => s
  end.

Definition toy_authority (scheme rest fragment : string) : option URL.t :=
  let '(host, path_query) := split_on "/" rest in
  let '(path, query) := split_on "?" (or_empty path_query) in
  if (host =? "")%string then None
  else Some {| URL.scheme := scheme; URL.host := host; URL.port := None;
               URL.path := String "/" path; URL.query := or_empty query;
               URL.fragment := fragment |}.

Definition toy_urljoin (base : URL.t) (location : string) : option URL.t :=
  let '(reference, fragment) := split_on "#" location in
  if String.prefix "//" reference then
    toy_authority (URL.scheme base) (drop 2 reference) (or_empty fragment)
  else if String.prefix "/" reference then
    let '(path, query) := split_on "?" reference in
    Some {| URL.scheme := URL.scheme base; URL.host := URL.host base;
            URL.port := URL.port base;
            URL.path := path; URL.query := or_empty query;
            URL.fragment := or_empty fragment |}
  else
    match split_on ":" reference with
    | (scheme, Some rest) =>
        if String.prefix "//" rest
        then toy_authority scheme (drop 2 rest) (or_empty fragment)
        else None
    | (_, None) => None
    end.

#[export] Instance toy_parser : UrlParser := {| urljoin := toy_urljoin |}.

(** A jar that never holds a cookie. *)
#[export] Instance empty_jar : CookieJar := {|
  Jar := unit;
  cookies_for := fun _ _ => EmptyString;
  apply_set_cookie := fun jar _ _ => jar
|}.

(** [int(params.get("count", "0"))] for a query that is empty or
    [count=<digits>]. *)
Definition count_param (query : string) : nat :=
  if String.prefix "count=" query then
    match NilEmpty.uint_of_string (drop 6 query) with
    | Some n => Nat.of_uint n
    | None => 0
    end
  else 0.

Definition reply (status : Z) (headers : Headers.t) : string + Reply :=
  inr {| reply_status := status; reply_headers := headers; reply_content := [] |}.

(** The handler [redirects] of [tests/client/test_redirects.py], for the
    paths used below; the test-suite mounts it as the transport. *)
Definition redirects (request : Request.t) : string + Reply :=
  let path := URL.path (Request.url request) in
  if (path =? "/no_redirect")%string then reply 200 []
  else if (path =? "/redirect_301")%string then
    reply 301 [("location", "https://example.org/")]%string
  else if (path =? "/redirect_302")%string then
    reply 302 [("location", "https://example.org/")]%string
  else if (path =? "/redirect_303")%string then
    reply 303 [("location", "https://example.org/")]%string
  else if (path =? "/multiple_redirects")%string then
    let count := count_param (URL.query (Request.url request)) in
    let redirect_count := count - 1 in
    match count with
    | 0 => reply 200 []
    | S _ =>
        let location := "/multiple_redirects"%string in
        let location :=
          match redirect_count with
          | 0 => location
          | S _ =>
              (location ++ "?count="
                 ++ NilEmpty.string_of_uint (Nat.to_uint redirect_count))%string
          end in
        reply 303 [("location"%string, location)]
    end
  else if (path =? "/redirect_loop")%string then
    reply 303 [("location", "/redirect_loop")]%string
  else if (path =? "/cross_domain")%string then
    reply 303 [("location", "https://example.org/cross_domain_target")]%string
  else if (path =? "/redirect_body")%string then
    reply 308 [("location", "/redirect_body_target")]%string
  else if (path =? "/redirect_no_body")%string then
    reply 303 [("location", "/redirect_body_target")]%string
  else reply 200 [].

(** [https://<host><path>?<query>] *)
Definition https (host path query : string) : URL.t :=
  {| URL.scheme := "https"; URL.host := host; URL.port := None;
     URL.path := path; URL.query := query; URL.fragment := "" |}.

(** What the tests look at in the result of a top-level request: the status
    code, the URL and the method of the last request, the headers it was
    sent with, and the length of the history. *)
Definition observed (r : option (RedirectEngine.outcome (Response.t * unit)))
  : option (RedirectEngine.outcome (Z * URL.t * string * Headers.t * nat)) :=
  match r with
  | Some (RedirectEngine.Success (response, _)) =>
      Some (RedirectEngine.Success
              (Response.status_code response,
               Request.url (Response.request response),
               Request.method (Response.request response),
               Request.headers (Response.request response),
               length (Response.history response)))
  | Some (RedirectEngine.Failure e) => Some (RedirectEngine.Failure e)
  | None => None
  end.

(** The client of the tests: redirects are followed, up to 20 of them. *)
Definition client : RedirectEngine.Policy :=
  {| RedirectEngine.allow_redirects := true;
     RedirectEngine.max_redirects := 20 |}.

(** A request for [https://<host><path>?<query>]. *)
Definition request_for (method host path query : string) (headers : Headers.t)
  (body : Request.Body) : Request.t :=
  {| Request.method := method; Request.url := https host path query;
     Request.headers := headers; Request.body := body |}.

End Doubles.

(* ================================================================== *)
(** ** Vocabulary of the further properties *)
(* ================================================================== *)

(** What the lines of a text are, read on the text itself. *)
Module Newlines.
Import LineDecoder.

(** The text with every "\r\n" and every other "\r" turned into "\n". *)
Fixpoint universal_newlines (text : str) : str :=
  match text with
  | [] => []
  | c :: text' =>
      if (c =? CR)%char then
        match text' with
        | d :: text'' =>
            if (d =? LF)%char then LF :: universal_newlines text''
            else LF :: universal_newlines text'
        | [] => [LF]
        end
      else c :: universal_newlines text'
  end.

(** No line terminator at all. *)
Definition plain (s : str) : bool :=
  forallb (fun c => negb (c =? LF)%char && negb (c =? CR)%char) s.

(** No "\r". *)
Definition no_cr (s : str) : bool := forallb (fun c => negb (c =? CR)%char) s.

(** A line with its terminator: plain text followed by one "\n". *)
Definition complete_line (line : str) : bool :=
  truthy line && (last line NUL =? LF)%char && plain (removelast line).

(** A line as [flush] may return it: complete, or plain and not empty. *)
Definition last_line (line : str) : bool :=
  complete_line line || (truthy line && plain line).

(** Pending text as the decoder keeps it: plain, but for a "\r" that may
    stand at its end. *)
Definition pending_ok (pending : str) : bool :=
  plain pending || (endswith_cr pending && plain (removelast pending)).

End Newlines.

(** Which exception a call ended with, if any. *)
Module Raises.

Definition raises {A : Type} (which : exn -> bool) (r : result A) : bool :=
  match r with
  | Ok _ => false
  | Raise e => which e
  end.

Definition is_ZlibError (e : exn) : bool :=
  match e with ZlibError _ => true | _ => false end.

Definition is_BrotliError (e : exn) : bool :=
  match e with BrotliError _ => true | _ => false end.

Definition is_UnicodeDecodeError (e : exn) : bool :=
  match e with UnicodeDecodeError _ => true | _ => false end.

Definition is_AssertionError (e : exn) : bool :=
  match e with AssertionError => true | _ => false end.

Definition is_RecursionError (e : exn) : bool :=
  match e with RecursionError => true | _ => false end.

End Raises.

(** Sequences of calls on one object. *)
Module Calls.

(** [decode] on each chunk in turn, through the interface, stopping at the
    first call that raises: the outputs so far, the object, and the
    exception if there was one. *)
Fixpoint decode_chunks {D : Type} {cls : ContentDecoder.class D}
  (self : D) (chunks : list bytes) : list bytes * D * option exn :=
  match chunks with
  | [] => ([], self, None)
  | chunk :: chunks' =>
      match ContentDecoder.decode self chunk with
      | (self', Ok out) =>
          let '(outs, self'', e) := decode_chunks self' chunks' in
          (out :: outs, self'', e)
      | (self', Raise e) => ([], self', Some e)
      end
  end.

(** A call on a [TextDecoder]. *)
Inductive call : Type :=
| Decode (data : bytes)
| Flush.

Section WithEngines.
Context {codecs : Codecs} {chardet : Chardet}.

(** The object after a call, however the call ended. *)
Definition after (self : TextDecoder.t) (c : call) : TextDecoder.t :=
  match c with
  | Decode data => fst (TextDecoder.decode self data)
  | Flush => fst (TextDecoder.flush self)
  end.

(** The object after a sequence of calls, the caller going on after the
    calls that raised. *)
Definition after_all (self : TextDecoder.t) (calls : list call) : TextDecoder.t :=
  fold_left after calls self.

(** What a call ends with. *)
Definition outcome (self : TextDecoder.t) (c : call) : result str :=
  match c with
  | Decode data => snd (TextDecoder.decode self data)
  | Flush => snd (TextDecoder.flush self)
  end.


(** [self.decoder is not None] *)
Definition committed (self : TextDecoder.t) : bool :=
  match TextDecoder.decoder self with
  | Some _ => true
  | None => false
  end.

(** [self.decoder is not None or self.buffer is not None] *)
Definition has_state (self : TextDecoder.t) : bool :=
  match TextDecoder.decoder self, TextDecoder.buffer self with
  | None, None => false
  | _, _ => true
  end.

End WithEngines.
End Calls.

(** New decoders, as the objects a [MultiDecoder] is given. *)
Module Objects.

Definition identity : ContentDecoder.object :=
  {| ContentDecoder.carrier := IdentityDecoder.t;
     ContentDecoder.methods := IdentityDecoder_class;
     ContentDecoder.self := IdentityDecoder.init |}.

Definition gzip {zlib : Zlib} : ContentDecoder.object :=
  {| ContentDecoder.carrier := GZipDecoder.t;
     ContentDecoder.methods := GZipDecoder_class;
     ContentDecoder.self := GZipDecoder.init |}.

Definition deflate {zlib : Zlib} : ContentDecoder.object :=
  {| ContentDecoder.carrier := DeflateDecoder.t;
     ContentDecoder.methods := DeflateDecoder_class;
     ContentDecoder.self := DeflateDecoder.init |}.

End Objects.

(** More stand-ins for the engines. *)
Module MoreDoubles.

(** A stand-in for [chardet] that never has a guess. *)
#[export] Instance no_guess : Chardet := {|
  UniversalDetector_t := unit;
  UniversalDetector := tt;
  feed := fun d _ => d;
  close := fun d => d;
  result_encoding := fun _ => None
|}.

(** A stand-in for [brotli]: the payload is stored as it is, followed by
    the end mark 0x03; [finish] raises when the end mark was not the last
    byte seen.  The object remembers whether it stands at the end of a
    stream. *)
#[export] Instance toy_brotli : Brotli := {|
  Decompressor_t := bool;
  Decompressor := false;
  _decompress := fun (_ : bool) (data : bytes) =>
    (Byte.eqb (last data x00) x03,
     Ok (if Byte.eqb (last data x00) x03 then removelast data else data));
  finish := Some (fun complete : bool =>
    (complete,
     if complete then Ok tt
     else Raise (BrotliError "decompression error: incomplete stream")))
|}.

(** A [BrotliDecoder] that was given the one byte 0x41 of a stream that
    goes on. *)
Definition brotli_mid_stream : ContentDecoder.object :=
  {| ContentDecoder.carrier := BrotliDecoder.t;
     ContentDecoder.methods := BrotliDecoder_class;
     ContentDecoder.self := fst (BrotliDecoder.decode BrotliDecoder.init [x41]) |}.

(** A jar for one site and one cookie: it holds the [name=value] pair to
    send, or nothing.  A [Set-Cookie] value replaces the pair, or removes it
    when it expires in 1970. *)
Fixpoint contains (pattern s : string) : bool :=
  String.prefix pattern s
  || match s with
     | EmptyString => false
     | String _ s' => contains pattern s'
     end.

Definition set_cookie (jar value : string) : string :=
  let '(cookie, attributes) := Doubles.split_on ";" value in
  if contains "expires=Thu, 01 Jan 1970" (Doubles.or_empty attributes)
  then EmptyString
  else cookie.

#[export] Instance session_jar : CookieJar := {|
  Jar := string;
  cookies_for := fun jar _ => jar;
  apply_set_cookie := fun jar _ values => fold_left set_cookie values jar
|}.

(** The handler [cookie_sessions] of [tests/client/test_redirects.py]. *)
Definition cookie_sessions (request : Request.t) : string + Reply :=
  let path := URL.path (Request.url request) in
  if (path =? "/")%string then
    let cookie := Headers.get "Cookie" (Request.headers request) in
    let content :=
      match cookie with
      | Some _ => "Logged in"%string
      | None => "Not logged in"%string
      end in
    inr {| reply_status := 200; reply_headers := [];
           reply_content := list_byte_of_string content |}
  else if (path =? "/login")%string then
    Doubles.reply 303
      [("location", "/");
       ("set-cookie",
        "session=eyJ1c2VybmFtZSI6ICJ0b21; path=/; Max-Age=1209600; httponly; samesite=lax")]%string
  else
    Doubles.reply 303
      [("location", "/");
       ("set-cookie",
        "session=null; path=/; expires=Thu, 01 Jan 1970 00:00:00 GMT; httponly; samesite=lax")]%string.

(** The requests of a client one after the other, the jar going from one
    to the next: the text of each final response. *)
Fixpoint session (transport : Transport) (jar : string) (requests : list Request.t)
  : list (option string) :=
  match requests with
  | [] => []
  | request :: requests' =>
      match @RedirectEngine.send Doubles.toy_parser session_jar
              Doubles.client transport jar request with
      | Some (RedirectEngine.Success (response, jar')) =>
          Some (string_of_list_byte (Response.content response))
          :: session transport jar' requests'
      | _ => [None]
      end
  end.

End MoreDoubles.

(* ================================================================== *)
(** * Properties *)
(* ================================================================== *)

(** ** LineDecoder *)

Module LineDecoderFacts.
Import LineDecoder LineDecoderModel.

Lemma endswith_cr_snoc (s : str) (c : ascii) :
  endswith_cr (s ++ [c]) = (c =? CR)%char.
Proof.
  unfold endswith_cr, last_is_cr. rewrite last_last.
  destruct s; reflexivity.
Qed.

Lemma nth_middle_app (pre suf : str) (c : ascii) :
  nth (length pre) (pre ++ c :: suf) NUL = c.
Proof. rewrite app_nth2, Nat.sub_diag by lia. reflexivity. Qed.

Lemma firstn_length_app (pre suf : str) : firstn (length pre) (pre ++ suf) = pre.
Proof. rewrite firstn_app, Nat.sub_diag, firstn_all. simpl. apply app_nil_r. Qed.

Lemma skipn_length_app (pre suf : str) : skipn (length pre) (pre ++ suf) = suf.
Proof. rewrite skipn_app, Nat.sub_diag, skipn_all. reflexivity. Qed.

Lemma snoc_app (pre suf : str) (c : ascii) : pre ++ c :: suf = (pre ++ [c]) ++ suf.
Proof. rewrite <- app_assoc. reflexivity. Qed.

Lemma length_snoc (pre : str) (c : ascii) : length (pre ++ [c]) = length pre + 1.
Proof. rewrite length_app. reflexivity. Qed.

Lemma for_idx_scan (suf pre : str) (lines : list str) (buffer : str) :
  for_idx lines buffer (pre ++ suf) (length pre) (length suf)
  = scan lines buffer pre suf.
Proof.
  revert pre. induction suf as [|c suf IH]; intros pre.
  - simpl. rewrite app_nil_r. reflexivity.
  - cbn [length for_idx scan].
    rewrite nth_middle_app.
    destruct (c =? LF)%char eqn:Hlf.
    + apply Ascii.eqb_eq in Hlf. subst c.
      rewrite (snoc_app pre suf), <- (length_snoc pre LF), firstn_length_app, skipn_length_app.
      reflexivity.
    + destruct suf as [|d suf'].
      * replace (length pre + 1 =? length (pre ++ [c])) with true
          by (rewrite length_snoc; symmetry; apply Nat.eqb_refl).
        cbn [is_lf is_not_none negb]. rewrite !andb_false_r. cbn [negb].
        reflexivity.
      * replace (length pre + 1 =? length (pre ++ c :: d :: suf')) with false
          by (symmetry; apply Nat.eqb_neq; rewrite length_app; simpl; lia).
        rewrite (snoc_app pre (d :: suf')) at 1.
        rewrite <- (length_snoc pre c), nth_middle_app.
        cbn [is_lf is_not_none negb]. rewrite !andb_true_r.
        rewrite firstn_length_app.
        destruct (c =? CR)%char eqn:Hcr.
        -- destruct (d =? LF)%char eqn:Hd.
           ++ replace (length pre + 2) with (length ((pre ++ [c]) ++ [d]))
                by (rewrite !length_app; simpl; lia).
              rewrite (snoc_app pre (d :: suf')), (snoc_app (pre ++ [c]) suf').
              rewrite skipn_length_app. reflexivity.
           ++ cbn [andb]. rewrite (snoc_app pre (d :: suf')).
              rewrite skipn_length_app. reflexivity.
        -- rewrite (snoc_app pre (d :: suf')).
           replace (S (length pre)) with (length (pre ++ [c]))
             by (rewrite length_snoc; lia).
           apply IH.
Qed.

Lemma feed_chars_cons (pending : str) (c : ascii) (text : str) :
  feed_chars pending (c :: text)
  = (fst (feed_char pending c) ++ fst (feed_chars (snd (feed_char pending c)) text),
     snd (feed_chars (snd (feed_char pending c)) text)).
Proof.
  cbn [feed_chars]. destruct (feed_char pending c) as [l p].
  cbn [fst snd]. destruct (feed_chars p text). reflexivity.
Qed.

Lemma feed_char_plain (pending : str) (c : ascii) :
  endswith_cr pending = false ->
  feed_char pending c
  = if (c =? LF)%char then ([pending ++ [LF]], []) else ([], pending ++ [c]).
Proof. intros H. unfold feed_char. rewrite H. reflexivity. Qed.

Lemma feed_char_after_cr (pending : str) (c : ascii) :
  feed_char (pending ++ [CR]) c
  = ([pending ++ [LF]], if (c =? LF)%char then [] else [c]).
Proof.
  unfold feed_char. rewrite endswith_cr_snoc, removelast_last.
  cbn. destruct (c =? LF)%char; reflexivity.
Qed.

(** One pass of the [for] loop over a non-empty [suf], read through the
    character automaton. *)
Lemma scan_feed (suf pre : str) (lines : list str) (buffer : str) :
  suf <> [] ->
  endswith_cr (buffer ++ pre) = false ->
  exists dl buffer' text',
    scan lines buffer pre suf = (lines ++ dl, buffer', text')
    /\ length text' < length suf
    /\ (text' = [] \/ endswith_cr buffer' = false)
    /\ feed_chars (buffer ++ pre) suf
       = (dl ++ fst (feed_chars buffer' text'), snd (feed_chars buffer' text')).
Proof.
  revert pre. induction suf as [|c suf IH]; intros pre Hne Hcr; [congruence|].
  cbn [scan]. rewrite feed_chars_cons, (feed_char_plain _ _ Hcr).
  destruct (c =? LF)%char eqn:Hlf.
  - exists [buffer ++ pre ++ [LF]], [], suf. cbn [fst snd length].
    rewrite <- app_assoc. repeat split; auto.
  - cbn [fst snd app]. destruct suf as [|d suf'].
    + exists [], (buffer ++ pre ++ [c]), []. cbn.
      rewrite app_nil_r, <- app_assoc. repeat split; auto.
    + destruct (c =? CR)%char eqn:Hc.
      * apply Ascii.eqb_eq in Hc. subst c.
        rewrite feed_chars_cons, feed_char_after_cr. cbn [fst snd].
        destruct (d =? LF)%char eqn:Hd.
        -- exists [buffer ++ pre ++ [LF]], [], suf'. cbn [length].
           rewrite <- app_assoc. repeat split; auto; lia.
        -- exists [buffer ++ pre ++ [LF]], [], (d :: suf'). cbn [length].
           rewrite (feed_chars_cons [] d suf').
           rewrite (feed_char_plain [] d eq_refl), Hd.
           cbn [fst snd app]. rewrite <- app_assoc. repeat split; auto; lia.
      * destruct (IH (pre ++ [c])) as (dl & b' & t' & Hs & Hlen & Hinv & Hfeed).
        -- discriminate.
        -- rewrite app_assoc, endswith_cr_snoc. exact Hc.
        -- exists dl, b', t'. rewrite Hs. rewrite app_assoc in Hfeed.
           rewrite Hfeed. cbn [length] in *. repeat split; auto; lia.
Qed.

Lemma while_text_feed (fuel : nat) (lines : list str) (buffer text : str) :
  length text <= fuel ->
  endswith_cr buffer = false ->
  while_text fuel lines buffer text
  = Some (lines ++ fst (feed_chars buffer text), snd (feed_chars buffer text)).
Proof.
  revert lines buffer text.
  induction fuel as [|fuel IH]; intros lines buffer text Hlen Hcr.
  - destruct text; [|cbn in Hlen; lia]. cbn. rewrite app_nil_r. reflexivity.
  - destruct text as [|c text'].
    + cbn. rewrite app_nil_r. reflexivity.
    + cbn [while_text].
      change (for_idx lines buffer (c :: text') 0 (length (c :: text')))
        with (for_idx lines buffer ([] ++ c :: text') (length (@nil ascii))
                (length (c :: text'))).
      rewrite for_idx_scan.
      destruct (scan_feed (c :: text') [] lines buffer)
        as (dl & b' & t' & Hs & Hl & Hinv & Hfeed).
      * discriminate.
      * rewrite app_nil_r. exact Hcr.
      * rewrite Hs. rewrite app_nil_r in Hfeed. rewrite Hfeed. cbn [fst snd].
        destruct Hinv as [-> | Hb'].
        -- cbn. rewrite !app_nil_r.
           destruct fuel; reflexivity.
        -- rewrite IH; [|cbn [length] in *; lia|exact Hb'].
           rewrite <- app_assoc. reflexivity.
Qed.

(** [decode] is the character automaton run over the chunk; in particular it
    always returns. *)
Lemma decode_feed (self : t) (text : str) :
  decode self text
  = Some (fst (feed_chars (buffer self) text),
          {| buffer := snd (feed_chars (buffer self) text) |}).
Proof.
  unfold decode. destruct text as [|c text'].
  - cbn. reflexivity.
  - cbn [truthy andb startswith_lf skipn].
    change (truthy (buffer self) && last_is_cr (buffer self))
      with (endswith_cr (buffer self)).
    rewrite feed_chars_cons. unfold feed_char.
    destruct (endswith_cr (buffer self)) eqn:Hcr.
    + destruct (c =? LF)%char eqn:Hlf; cbn [fst snd app].
      * rewrite while_text_feed by (auto; reflexivity). reflexivity.
      * rewrite while_text_feed by (auto; reflexivity).
        rewrite (feed_chars_cons [] c text').
        rewrite (feed_char_plain [] c eq_refl), Hlf.
        cbn [fst snd app]. reflexivity.
    + rewrite while_text_feed by auto.
      rewrite feed_chars_cons, (feed_char_plain _ _ Hcr).
      cbn [app]. reflexivity.
Qed.

Lemma feed_chars_app (pending s t : str) :
  feed_chars pending (s ++ t)
  = (fst (feed_chars pending s) ++ fst (feed_chars (snd (feed_chars pending s)) t),
     snd (feed_chars (snd (feed_chars pending s)) t)).
Proof.
  revert pending. induction s as [|c s IH]; intros pending.
  - cbn. destruct (feed_chars pending t). reflexivity.
  - cbn [app]. rewrite !feed_chars_cons, IH. cbn [fst snd].
    rewrite app_assoc. reflexivity.
Qed.

Lemma decode_chunks_feed (chunks : list str) (self : t) :
  decode_chunks self chunks
  = Some (fst (feed_chars (buffer self) (concat chunks)),
          {| buffer := snd (feed_chars (buffer self) (concat chunks)) |}).
Proof.
  revert self. induction chunks as [|chunk chunks IH]; intros self.
  - destruct self. reflexivity.
  - cbn [decode_chunks concat]. rewrite decode_feed, IH, feed_chars_app.
    reflexivity.
Qed.

(** [decode] never runs out of fuel: the [while] loop ends. *)
Lemma decode_returns (self : t) (text : str) :
  exists lines self', decode self text = Some (lines, self').
Proof. rewrite decode_feed. eauto. Qed.

(** C4: for every text and every partition of it into chunks, decoding the
    chunks one [decode] call at a time and concatenating the returned
    lists, then [flush], gives exactly the lines of one [decode] call on the
    whole text followed by [flush]; both runs return.  The text is
    arbitrary, so it may mix "\n", "\r\n" and bare "\r" at will, also across
    chunk boundaries. *)
Theorem decode_partition (text : str) (chunks : list str) :
  concat chunks = text ->
  exists lines,
    decode_then_flush init chunks = Some lines
    /\ decode_then_flush init [text] = Some lines.
Proof.
  intros <-. unfold decode_then_flush. rewrite !decode_chunks_feed.
  cbn [concat]. rewrite app_nil_r. eexists. split; reflexivity.
Qed.

(** The text "a\r\nb\rc\n\n\r", cut inside the "\r\n" pair and after a bare
    "\r": five lines, each ending in "\n". *)
Lemma decode_partition_witness :
  let a := "a"%char in
  let b := "b"%char in
  let c := "c"%char in
  let text := [a; CR; LF; b; CR; c; LF; LF; CR] in
  let chunks := [[a; CR]; [LF; b; CR]; []; [c; LF; LF; CR]] in
  concat chunks = text
  /\ decode_then_flush init [text] = Some [[a; LF]; [b; LF]; [c; LF]; [LF]; [LF]]
  /\ exists lines,
       decode_then_flush init chunks = Some lines
       /\ decode_then_flush init [text] = Some lines.
Proof.
  cbv zeta. split; [reflexivity|]. split; [reflexivity|].
  apply decode_partition. reflexivity.
Defined.
End LineDecoderFacts.

(** ** DeflateDecoder *)

Module DeflateDecoderFacts.
Import DeflateDecoder.

Section WithZlib.
Context {zlib : Zlib}.

(** Once [first_attempt] is [False] the method does not call itself. *)
Lemma decode_rec_not_first (n : nat) (self : t) (data : bytes) :
  first_attempt self = false ->
  decode_rec (S n) self data = decode_rec 1 self data.
Proof.
  intros H. cbn [decode_rec first_attempt decompressor]. rewrite H.
  reflexivity.
Qed.

(** Two frames are all [decode] ever needs. *)
Lemma decode_rec_depth (n : nat) (self : t) (data : bytes) :
  decode_rec (S (S n)) self data = decode_rec 2 self data.
Proof.
  cbn [decode_rec first_attempt decompressor].
  destruct (decompress (decompressor self) data) as [d [out|[]]]; reflexivity.
Qed.

Lemma decode_depth_2 (self : t) (data : bytes) :
  decode self data = decode_rec 2 self data.
Proof. unfold decode. change recursion_limit with (S (S 998)). apply decode_rec_depth. Qed.

(** [decode] never exhausts the recursion limit. *)
Lemma decode_no_RecursionError (self : t) (data : bytes) :
  snd (decode self data) = Raise RecursionError ->
  exists d,
    (decompress (decompressor self) data = (d, Raise RecursionError)
     \/ decompress (decompressobj (- MAX_WBITS)) data = (d, Raise RecursionError)).
Proof.
  rewrite decode_depth_2. cbn [decode_rec first_attempt decompressor].
  destruct (decompress (decompressor self) data) as [d [out|e]] eqn:E1;
    [cbn [snd]; discriminate|].
  destruct e; cbn [snd]; try discriminate; [|eauto].
  destruct (first_attempt self); cbn [snd]; [|discriminate].
  destruct (decompress (decompressobj (- MAX_WBITS)) data) as [d' [out|e]] eqn:E2;
    [cbn [snd]; discriminate|].
  destruct e; cbn [snd]; try discriminate. eauto.
Qed.

Lemma decode_not_first (self : t) (data : bytes) :
  first_attempt self = false ->
  decode self data = final_attempt (decompressor self) data.
Proof.
  intros H. rewrite decode_depth_2, (decode_rec_not_first 1 _ _ H).
  cbn [decode_rec first_attempt decompressor]. rewrite H. unfold final_attempt.
  destruct (decompress (decompressor self) data) as [d [out|[]]]; reflexivity.
Qed.

Lemma decode_clears_first_attempt (self : t) (data : bytes) :
  first_attempt (fst (decode self data)) = false.
Proof.
  rewrite decode_depth_2. cbn [decode_rec first_attempt decompressor].
  destruct (decompress (decompressor self) data) as [d [out|[]]]; try reflexivity.
  destruct (first_attempt self); [|reflexivity].
  cbn [first_attempt decompressor].
  destruct (decompress (decompressobj (- MAX_WBITS)) data) as [d' [out|[]]];
    reflexivity.
Qed.

Lemma decode_chunks_clears_first_attempt (chunks : list bytes) (self : t) :
  chunks <> [] ->
  first_attempt (snd (fst (decode_chunks self chunks))) = false.
Proof.
  revert self. induction chunks as [|chunk chunks IH]; intros self Hne.
  - congruence.
  - cbn [decode_chunks]. pose proof (decode_clears_first_attempt self chunk) as Hc.
    destruct (decode self chunk) as [self' [out|e]]; cbn [fst] in Hc.
    + destruct chunks as [|chunk' chunks'].
      * exact Hc.
      * specialize (IH self' ltac:(discriminate)).
        destruct (decode_chunks self' (chunk' :: chunks')) as [[outs self''] e].
        exact IH.
    + exact Hc.
Qed.

(** C5: when the decompressor fails on a chunk with [zlib.error], then
    - on the first [decode] call ([first_attempt] still [True]) the
      decompressor is replaced by one for raw deflate
      ([zlib.decompressobj(-zlib.MAX_WBITS)]) and the same chunk is given to
      it once: the call ends as that single attempt ends, a second
      [zlib.error] being raised as [ValueError];
    - when [first_attempt] is already [False] the call raises [ValueError]
      with the message of the [zlib.error], and the decompressor is not
      replaced. *)
Theorem deflate_retries_raw_once
  (self : t) (data : bytes) (d : decompressobj_t) (exc : string) :
  decompress (decompressor self) data = (d, Raise (ZlibError exc)) ->
  (first_attempt self = true ->
   decode self data = final_attempt (decompressobj (- MAX_WBITS)) data)
  /\ (first_attempt self = false ->
      decode self data
      = ({| first_attempt := false; decompressor := d |}, Raise (ValueError exc))).
Proof.
  intros Hfail. split; intros Hfirst.
  - rewrite decode_depth_2. cbn [decode_rec first_attempt decompressor].
    rewrite Hfail, Hfirst. unfold final_attempt.
    destruct (decompress (decompressobj (- MAX_WBITS)) data) as [d' [out|[]]];
      reflexivity.
  - rewrite (decode_not_first _ _ Hfirst). unfold final_attempt.
    rewrite Hfail. reflexivity.
Qed.

Lemma after_chunks_clears_first_attempt (chunks : list bytes) (self : t) :
  first_attempt self = false ->
  first_attempt (after_chunks self chunks) = false.
Proof.
  unfold after_chunks. revert self.
  induction chunks as [|chunk chunks IH]; intros self H; [exact H|].
  cbn [fold_left]. apply IH, decode_clears_first_attempt.
Qed.

(** C10: the first [decode] call of a new decoder clears [first_attempt]
    whatever its chunk (an empty one, say) and however it ends, by returning
    or by raising; and after it and any further [decode] calls, whether they
    returned or raised, [first_attempt] is still cleared, so that a
    [zlib.error] on a chunk is raised at once as [ValueError]: the
    decompressor is left as the failed call left it, and no raw-deflate
    decompressor is tried. *)
Theorem deflate_fallback_spent_by_first_call
  (first : bytes) (later : list bytes)
  (data : bytes) (d : decompressobj_t) (exc : string) :
  let self := after_chunks (fst (decode init first)) later in
  first_attempt (fst (decode init first)) = false
  /\ first_attempt self = false
  /\ (decompress (decompressor self) data = (d, Raise (ZlibError exc)) ->
      decode self data
      = ({| first_attempt := false; decompressor := d |}, Raise (ValueError exc))).
Proof.
  cbv zeta.
  assert (Hfirst : first_attempt (after_chunks (fst (decode init first)) later)
                   = false)
    by apply after_chunks_clears_first_attempt, decode_clears_first_attempt.
  split; [apply decode_clears_first_attempt|]. split; [exact Hfirst|].
  intros Hfail. rewrite (decode_not_first _ _ Hfirst). unfold final_attempt.
  rewrite Hfail. reflexivity.
Qed.

End WithZlib.

Import Doubles.

(** A raw stream (no 0x78 header) on a fresh decoder is decoded by the one
    raw attempt; on a decoder that is past its first call it is an error. *)
Lemma deflate_retries_raw_once_witness :
  let data := [x01; x02] in
  let msg := "Error -3 while decompressing data: incorrect header check"%string in
  decode init data
  = ({| first_attempt := false;
        decompressor := {| wbits := -15; header_seen := false; calls := 1 |} |},
     Ok data)
  /\ decode {| first_attempt := false; decompressor := decompressobj MAX_WBITS |} data
     = ({| first_attempt := false;
           decompressor := {| wbits := 15; header_seen := false; calls := 1 |} |},
        Raise (ValueError msg)).
Proof.
  cbv zeta. split.
  - refine (eq_trans
              (proj1 (deflate_retries_raw_once init [x01; x02]
                        {| wbits := 15; header_seen := false; calls := 1 |}
                        "Error -3 while decompressing data: incorrect header check"
                        eq_refl) eq_refl) _).
    reflexivity.
  - exact (proj2 (deflate_retries_raw_once
                    {| first_attempt := false; decompressor := decompressobj MAX_WBITS |}
                    [x01; x02]
                    {| wbits := 15; header_seen := false; calls := 1 |}
                    "Error -3 while decompressing data: incorrect header check"
                    eq_refl) eq_refl).
Defined.

(** A first call with an empty chunk, then a raw stream: the framed
    decompressor rejects it and the call raises, although the same chunk on a
    raw decompressor would have been decoded; and after that call, which
    raised, the next raw stream is rejected in the same way. *)
Lemma deflate_fallback_spent_by_first_call_witness :
  let data := [x01; x02] in
  let msg := "Error -3 while decompressing data: incorrect header check"%string in
  let framed n :=
    {| first_attempt := false;
       decompressor := {| wbits := 15; header_seen := false; calls := n |} |} in
  decode init [] = (framed 1, Ok [])
  /\ snd (final_attempt (decompressobj (- MAX_WBITS)) data) = Ok data
  /\ decode (framed 1) data = (framed 2, Raise (ValueError msg))
  /\ after_chunks (fst (decode init [])) [data] = framed 2
  /\ decode (framed 2) [x03] = (framed 3, Raise (ValueError msg)).
Proof.
  cbv zeta. split; [reflexivity|]. split; [reflexivity|]. split.
  - exact (proj2 (proj2 (deflate_fallback_spent_by_first_call [] []
             [x01; x02]
             {| wbits := 15; header_seen := false; calls := 2 |}
             "Error -3 while decompressing data: incorrect header check"))
             eq_refl).
  - split; [reflexivity|].
    exact (proj2 (proj2 (deflate_fallback_spent_by_first_call [] [[x01; x02]]
             [x03]
             {| wbits := 15; header_seen := false; calls := 3 |}
             "Error -3 while decompressing data: incorrect header check"))
             eq_refl).
Defined.

End DeflateDecoderFacts.

(** ** MultiDecoder *)

Module MultiDecoderFacts.
Import ContentDecoder MultiDecoder.

(** The loop of [decode] over a list extended at its end. *)
Lemma decode_loop_snoc (cs : list object) (a : object) (data : bytes) :
  decode_loop (cs ++ [a]) data
  = match decode_loop cs data with
    | (cs', Ok out) =>
        let '(a', r) := call_decode a out in (cs' ++ [a'], r)
    | (cs', Raise e) => (cs' ++ [a], Raise e)
    end.
Proof.
  revert data. induction cs as [|c cs IH]; intros data.
  - cbn. destruct (call_decode a data) as [a' [out|e]]; reflexivity.
  - cbn [app decode_loop].
    destruct (call_decode c data) as [c' [out|e]]; [|reflexivity].
    rewrite IH. destruct (decode_loop cs out) as [cs' [out'|e]].
    + destruct (call_decode a out') as [a' r]. reflexivity.
    + reflexivity.
Qed.

(** The loop of [flush] over a list extended at its end. *)
Lemma flush_loop_snoc (cs : list object) (a : object) (data : bytes) :
  flush_loop (cs ++ [a]) data
  = match flush_loop cs data with
    | (cs', Ok released) =>
        match call_decode a released with
        | (a', Ok decoded) =>
            match call_flush a' with
            | (a'', Ok flushed) => (cs' ++ [a''], Ok (decoded ++ flushed))
            | (a'', Raise e) => (cs' ++ [a''], Raise e)
            end
        | (a', Raise e) => (cs' ++ [a'], Raise e)
        end
    | (cs', Raise e) => (cs' ++ [a], Raise e)
    end.
Proof.
  revert data. induction cs as [|c cs IH]; intros data.
  - cbn. destruct (call_decode a data) as [a' [out|e]]; [|reflexivity].
    destruct (call_flush a') as [a'' [fl|e]]; reflexivity.
  - cbn [app flush_loop].
    destruct (call_decode c data) as [c' [out|e]]; [|reflexivity].
    destruct (call_flush c') as [c'' [fl|e]]; [|reflexivity].
    rewrite IH. destruct (flush_loop cs (out ++ fl)) as [cs' [released|e]].
    + destruct (call_decode a released) as [a' [decoded|e]]; [|reflexivity].
      destruct (call_flush a') as [a'' [flushed|e]]; reflexivity.
    + reflexivity.
Qed.

(** C6: a [MultiDecoder] built from the decoders in the order the encodings
    were applied
    - keeps them reversed: the decoder of the encoding applied first comes
      last;
    - [decode] gives the chunk to the first stored child and the output of
      each child to the next one, so the decoder of the encoding applied
      first works on what the decoders of all later encodings returned;
    - [flush] goes through the children in the same order, starting from
      empty data: the first stored child gets one [decode] of the empty
      input and its [flush], and each further child decodes what came out
      of the children before it (their decoded and flushed bytes) before its
      own [flush] output is appended, so the bytes a child releases at
      [flush] pass through every child after it. *)
Theorem multi_decoder_reverse_order
  (first : object) (applied : list object) (child : object) (rest : list object)
  (data : bytes) :
  children (init applied) = rev applied
  /\ children (init (first :: applied)) = children (init applied) ++ [first]
  /\ decode {| children := child :: rest |} data
     = match call_decode child data with
       | (child', Ok out) =>
           let '(m, r) := decode {| children := rest |} out in
           ({| children := child' :: children m |}, r)
       | (child', Raise e) => ({| children := child' :: rest |}, Raise e)
       end
  /\ decode (init (first :: applied)) data
     = match decode (init applied) data with
       | (m, Ok out) =>
           let '(first', r) := call_decode first out in
           ({| children := children m ++ [first'] |}, r)
       | (m, Raise e) => ({| children := children m ++ [first] |}, Raise e)
       end
  /\ flush {| children := child :: rest |}
     = match call_decode child [] with
       | (child', Ok decoded) =>
           match call_flush child' with
           | (child'', Ok flushed) =>
               let '(rest', r) := flush_loop rest (decoded ++ flushed) in
               ({| children := child'' :: rest' |}, r)
           | (child'', Raise e) => ({| children := child'' :: rest |}, Raise e)
           end
       | (child', Raise e) => ({| children := child' :: rest |}, Raise e)
       end
  /\ flush (init (first :: applied))
     = match flush (init applied) with
       | (m, Ok released) =>
           match call_decode first released with
           | (first', Ok decoded) =>
               match call_flush first' with
               | (first'', Ok flushed) =>
                   ({| children := children m ++ [first''] |},
                    Ok (decoded ++ flushed))
               | (first'', Raise e) =>
                   ({| children := children m ++ [first''] |}, Raise e)
               end
           | (first', Raise e) =>
               ({| children := children m ++ [first'] |}, Raise e)
           end
       | (m, Raise e) => ({| children := children m ++ [first] |}, Raise e)
       end.
Proof.
  split; [reflexivity|]. split; [reflexivity|]. split; [|split; [|split]].
  - unfold decode. cbn [children decode_loop].
    destruct (call_decode child data) as [child' [out|e]]; [|reflexivity].
    destruct (decode_loop rest out) as [rest' r]. reflexivity.
  - unfold decode, init. cbn [children rev]. rewrite decode_loop_snoc.
    destruct (decode_loop (rev applied) data) as [cs' [out|e]]; cbn [children].
    + destruct (call_decode first out) as [first' r]. reflexivity.
    + reflexivity.
  - unfold flush. cbn [children flush_loop].
    destruct (call_decode child []) as [child' [decoded|e]]; [|reflexivity].
    destruct (call_flush child') as [child'' [flushed|e]]; [|reflexivity].
    destruct (flush_loop rest (decoded ++ flushed)) as [rest' r]. reflexivity.
  - unfold flush, init. cbn [children rev]. rewrite flush_loop_snoc.
    destruct (flush_loop (rev applied) []) as [cs' [released|e]]; cbn [children].
    + destruct (call_decode first released) as [first' [decoded|e]]; [|reflexivity].
      destruct (call_flush first') as [first'' [flushed|e]]; reflexivity.
    + reflexivity.
Qed.

End MultiDecoderFacts.

(** ** TextDecoder *)

Module TextDecoderFacts.
Import TextDecoder.

Section WithEngines.
Context {codecs : Codecs} {chardet : Chardet}.

Lemma init_undeclared : init None = Ok fresh.
Proof. reflexivity. Qed.

(** Below the threshold a [decode] call only feeds the detector and grows
    the buffer. *)
Lemma decode_below_threshold
  (det : UniversalDetector_t) (buf data : bytes) :
  length (buf ++ data) < 4096 ->
  decode (undetermined det buf) data
  = (undetermined (feed det data) (buf ++ data), Ok []).
Proof.
  intros Hlen. unfold decode, undetermined. cbn [decoder buffer detector].
  replace (4096 <=? length (buf ++ data)) with false
    by (symmetry; apply Nat.leb_gt; exact Hlen).
  reflexivity.
Qed.

Lemma decode_chunks_below_threshold
  (chunks : list bytes) (det : UniversalDetector_t) (buf : bytes) :
  length (buf ++ concat chunks) < 4096 ->
  decode_chunks (undetermined det buf) chunks
  = (map (fun _ => []) chunks,
     undetermined (fold_left feed chunks det) (buf ++ concat chunks),
     None).
Proof.
  revert det buf. induction chunks as [|chunk chunks IH]; intros det buf Hlen.
  - cbn. rewrite app_nil_r. reflexivity.
  - cbn [decode_chunks concat fold_left map] in *.
    rewrite app_assoc in Hlen.
    rewrite decode_below_threshold
      by (rewrite length_app in Hlen; lia).
    rewrite (IH _ _ Hlen), app_assoc. reflexivity.
Qed.

(** What [_detector_result] returns when the detector has a guess. *)
Lemma detector_result_guess (self : t) (encoding : string) :
  result_encoding (close (detector self)) = Some encoding ->
  encoding <> EmptyString ->
  _detector_result self
  = ({| decoder := decoder self;
        detector := close (detector self);
        buffer := buffer self |}, Ok encoding).
Proof.
  intros Hres Hne. unfold _detector_result. cbn [detector].
  rewrite Hres. destruct encoding; [congruence|reflexivity].
Qed.

Lemma decode_committed (self : t) (d : IncrementalDecoder) (data : bytes) :
  decoder self = Some d ->
  decode self data
  = ({| decoder := Some (fst (incremental_decode d data false));
        detector := detector self;
        buffer := buffer self |},
     except_UnicodeDecodeError (snd (incremental_decode d data false))).
Proof.
  intros H. unfold decode. rewrite H.
  destruct (incremental_decode d data false). reflexivity.
Qed.

(** C7: for a decoder made without a declared encoding,
    - as long as the bytes received stay under 4096 in total, every
      [decode] call returns the empty string, feeds the detector and adds
      the bytes to the buffer;
    - at the first call that brings the buffer to 4096 bytes or more, the
      detector is closed, the decoder of the detected encoding is made, all
      the buffered bytes (the new chunk included) are decoded in one
      non-final pass whose text is returned, and the buffer is dropped;
    - a decoder that is committed hands every chunk straight to its
      incremental decoder, and stays committed. *)
Theorem text_decoder_buffers_then_commits
  (chunks : list bytes) (data : bytes) (encoding : string)
  (d d' : IncrementalDecoder) (text : str) :
  let det := fold_left feed chunks UniversalDetector in
  (length (concat chunks) < 4096 ->
   decode_chunks fresh chunks
   = (map (fun _ => []) chunks, undetermined det (concat chunks), None))
  /\ (length (concat chunks) < 4096 ->
      4096 <= length (concat chunks ++ data) ->
      result_encoding (close (feed det data)) = Some encoding ->
      encoding <> EmptyString ->
      getincrementaldecoder encoding = Ok d ->
      incremental_decode d (concat chunks ++ data) false = (d', Ok text) ->
      decode (undetermined det (concat chunks)) data
      = ({| decoder := Some d'; detector := close (feed det data); buffer := None |},
         Ok text))
  /\ (forall (self : t) (c : IncrementalDecoder) (more : bytes),
      decoder self = Some c ->
      decode self more
      = ({| decoder := Some (fst (incremental_decode c more false));
            detector := detector self;
            buffer := buffer self |},
         except_UnicodeDecodeError (snd (incremental_decode c more false)))).
Proof.
  intros det. split; [|split].
  - intros Hlen. apply (decode_chunks_below_threshold chunks UniversalDetector []).
    exact Hlen.
  - intros _ Hlen Hres Hne Hget Hdec.
    unfold decode, undetermined. cbn [decoder buffer detector].
    replace (4096 <=? length (concat chunks ++ data)) with true
      by (symmetry; apply Nat.leb_le; exact Hlen).
    rewrite (detector_result_guess _ encoding) by assumption.
    cbn [decoder buffer detector]. rewrite Hget, Hdec. reflexivity.
  - intros self c more. apply decode_committed.
Qed.

(** C8: [flush] on a decoder made without a declared encoding
    - returns the empty string, and leaves the object alone, when no byte
      was received;
    - when bytes were received, fewer than 4096 in all, closes the detector
      and returns the whole buffer decoded with the detected encoding (a
      [UnicodeDecodeError] of that decoding being raised as [ValueError]);
    and on a committed decoder it makes one final [decode] call with empty
    input. *)
Theorem text_decoder_flush
  (chunks : list bytes) (encoding : string) :
  let det := fold_left feed chunks UniversalDetector in
  let self := snd (fst (decode_chunks fresh chunks)) in
  (length (concat chunks) = 0 -> flush self = (self, Ok []))
  /\ (0 < length (concat chunks) < 4096 ->
      result_encoding (close det) = Some encoding ->
      encoding <> EmptyString ->
      flush self
      = (undetermined (close det) (concat chunks),
         except_UnicodeDecodeError (bytes_decode (concat chunks) encoding)))
  /\ (forall (committed : t) (c : IncrementalDecoder),
      decoder committed = Some c ->
      flush committed
      = ({| decoder := Some (fst (incremental_decode c [] true));
            detector := detector committed;
            buffer := buffer committed |},
         except_UnicodeDecodeError (snd (incremental_decode c [] true)))).
Proof.
  intros det self. split; [|split].
  - intros Hlen. subst self. unfold fresh.
    rewrite (decode_chunks_below_threshold chunks UniversalDetector [])
      by (cbn [app]; lia).
    cbn [fst snd app]. unfold flush, undetermined. cbn [decoder buffer].
    rewrite Hlen. reflexivity.
  - intros [Hpos Hlen] Hres Hne. subst self. unfold fresh.
    rewrite (decode_chunks_below_threshold chunks UniversalDetector [])
      by (cbn [app]; lia).
    cbn [fst snd app]. unfold flush. cbn [undetermined decoder buffer].
    destruct (length (concat chunks)) as [|n] eqn:E; [lia|]. cbn [Nat.eqb].
    rewrite (detector_result_guess _ encoding) by assumption.
    reflexivity.
  - intros committed c H. unfold flush. rewrite H.
    destruct (incremental_decode c [] true). reflexivity.
Qed.





End WithEngines.

Import Doubles.

(** 4000 bytes, then 96 more, then one: nothing, then the 4096 characters,
    then the one. *)
Lemma text_decoder_buffers_then_commits_witness :
  let chunks := [repeat x61 4000] in
  let data := repeat x62 96 in
  let committed := {| decoder := Some {| sig := false; started := true |};
                      detector := {| got_data := true; bom := false; closed := true |};
                      buffer := None |} in
  decode_chunks fresh chunks
  = ([[]], undetermined {| got_data := true; bom := false; closed := false |}
             (repeat x61 4000), None)
  /\ decode (undetermined {| got_data := true; bom := false; closed := false |}
               (repeat x61 4000)) data
     = (committed, Ok (repeat "a"%char 4000 ++ repeat "b"%char 96))
  /\ decode committed [x63] = (committed, Ok ["c"%char]).
Proof.
  cbv zeta.
  pose proof (text_decoder_buffers_then_commits
                [repeat x61 4000] (repeat x62 96) "ascii"
                {| sig := false; started := false |}
                {| sig := false; started := true |}
                (repeat "a"%char 4000 ++ repeat "b"%char 96)) as H.
  cbv zeta in H. destruct H as (H1 & H2 & H3).
  split; [|split].
  - apply H1. apply Nat.ltb_lt. vm_compute. reflexivity.
  - apply H2.
    + apply Nat.ltb_lt. vm_compute. reflexivity.
    + apply Nat.leb_le. vm_compute. reflexivity.
    + reflexivity.
    + discriminate.
    + reflexivity.
    + vm_compute. reflexivity.
  - refine (eq_trans
              (H3 {| decoder := Some {| sig := false; started := true |};
                     detector := {| got_data := true; bom := false; closed := true |};
                     buffer := None |}
                  {| sig := false; started := true |} [x63] eq_refl) _).
    reflexivity.
Defined.

(** No chunk at all; the three bytes "abc"; and a committed decoder. *)
Lemma text_decoder_flush_witness :
  let committed := {| decoder := Some {| sig := false; started := true |};
                      detector := {| got_data := true; bom := false; closed := true |};
                      buffer := None |} in
  flush fresh = (fresh, Ok [])
  /\ flush (snd (fst (decode_chunks fresh [[x61]; [x62; x63]])))
     = (undetermined {| got_data := true; bom := false; closed := true |}
          [x61; x62; x63],
        Ok ["a"; "b"; "c"]%char)
  /\ flush committed = (committed, Ok []).
Proof.
  cbv zeta. split; [|split].
  - exact (proj1 (text_decoder_flush [] "ascii") eq_refl).
  - refine (eq_trans
              (proj1 (proj2 (text_decoder_flush [[x61]; [x62; x63]] "ascii"))
                 _ eq_refl _) _).
    + cbn. lia.
    + discriminate.
    + reflexivity.
  - refine (eq_trans
              (proj2 (proj2 (text_decoder_flush [] "ascii"))
                 {| decoder := Some {| sig := false; started := true |};
                    detector := {| got_data := true; bom := false; closed := true |};
                    buffer := None |}
                 {| sig := false; started := true |} eq_refl) _).
    reflexivity.
Defined.


(** After the commit that raised, the decoder is used as a committed one:
    a further [decode] call returns, so does [flush], and both components
    are still set. *)
Example both_set_from_then_on :
  let data := BOM_UTF8 ++ [xff] ++ repeat x20 4092 in
  let self := Calls.after_all fresh [Calls.Decode data] in
  Calls.outcome self (Calls.Decode [x61]) = Ok ["a"%char]
  /\ Calls.outcome (Calls.after self (Calls.Decode [x61])) Calls.Flush = Ok []
  /\ exactly_one (Calls.after_all self [Calls.Decode [x61]; Calls.Flush]) = false.
Proof. vm_compute. repeat split; reflexivity. Qed.


End TextDecoderFacts.

(** ** Redirect engine *)

Module HeadersFacts.
Import Headers.

Lemma same_name_sym (a b : string) : same_name a b = same_name b a.
Proof. unfold same_name. apply String.eqb_sym. Qed.

(** Two names that differ up to case are not mistaken for each other by a
    third. *)
Lemma same_name_other (h a b : string) :
  same_name a b = false -> same_name h a = true -> same_name h b = false.
Proof.
  unfold same_name. intros Hab Hha.
  apply String.eqb_eq in Hha. rewrite Hha. exact Hab.
Qed.

Lemma get_list_remove_same (name : string) (hs : t) :
  get_list name (remove name hs) = [].
Proof.
  unfold get_list, remove. induction hs as [|h hs IH]; [reflexivity|].
  cbn [filter]. destruct (same_name (fst h) name) eqn:E; cbn [negb filter].
  - exact IH.
  - rewrite E. exact IH.
Qed.

Lemma get_list_remove_other (a b : string) (hs : t) :
  same_name a b = false ->
  get_list a (remove b hs) = get_list a hs.
Proof.
  intros Hab. unfold get_list, remove. f_equal.
  induction hs as [|h hs IH]; [reflexivity|].
  cbn [filter]. destruct (same_name (fst h) a) eqn:Ea.
  - rewrite (same_name_other _ _ _ Hab Ea). cbn [negb filter].
    rewrite Ea, IH. reflexivity.
  - destruct (negb (same_name (fst h) b)); cbn [filter]; rewrite ?Ea; exact IH.
Qed.

Lemma get_list_set_other (a b value : string) (hs : t) :
  same_name a b = false ->
  get_list a (set b value hs) = get_list a hs.
Proof.
  intros Hab. unfold set, get_list. rewrite filter_app, map_app.
  cbn [filter fst]. rewrite same_name_sym, Hab. cbn [map]. rewrite app_nil_r.
  apply (get_list_remove_other a b hs Hab).
Qed.

End HeadersFacts.

Module URLFacts.
Import URL.

Lemma option_N_eqb_eq (a b : option N) : option_N_eqb a b = true <-> a = b.
Proof.
  destruct a as [x|], b as [y|]; cbn; split; intros H;
    try discriminate; try reflexivity.
  - apply N.eqb_eq in H. congruence.
  - injection H as ->. apply N.eqb_refl.
Qed.

(** [same_origin] decides the equality of origins. *)
Lemma same_origin_iff (a b : t) : same_origin a b = true <-> origin a = origin b.
Proof.
  unfold same_origin, origin. rewrite !andb_true_iff, !String.eqb_eq, option_N_eqb_eq.
  split.
  - intros [[-> ->] ->]. reflexivity.
  - intros [= -> -> ->]. auto.
Qed.

Lemma same_origin_false_iff (a b : t) :
  same_origin a b = false <-> origin a <> origin b.
Proof.
  rewrite <- same_origin_iff. destruct (same_origin a b); split; congruence.
Qed.

End URLFacts.

Module RedirectEngineFacts.
Import RedirectEngine.

Section WithCollaborators.
Context {parser : UrlParser} {cookiejar : CookieJar}.

(** What a follow-up request is made of. *)
Lemma build_redirect_request_inv
  (jar : Jar) (request : Request.t) (status : Z) (location : string)
  (next : Request.t) :
  build_redirect_request jar request status location = Success next ->
  exists url body,
    redirect_url request location = Success url
    /\ allowed_scheme (URL.scheme url) = true
    /\ redirect_body status (Request.method request) (Request.body request)
       = Success body
    /\ next
       = {| Request.method := redirect_method status (Request.method request);
            Request.url := url;
            Request.headers :=
              resolve_cookies jar url
                (redirect_headers
                   (body_dropped status (Request.method request))
                   (negb (URL.same_origin url (Request.url request)))
                   (Request.headers request));
            Request.body := body |}.
Proof.
  unfold build_redirect_request.
  destruct (redirect_url request location) as [url|e]; [|discriminate].
  destruct (allowed_scheme (URL.scheme url)) eqn:Hs; [|discriminate].
  cbn [negb].
  destruct (redirect_body status (Request.method request) (Request.body request))
    as [body|e]; [|discriminate].
  intros [= <-]. exists url, body. auto.
Qed.

(** The follow-up request exists as soon as the location resolves to an
    allowed scheme and the body can be sent again. *)
Lemma build_redirect_request_succeeds
  (jar : Jar) (request : Request.t) (status : Z) (location : string) (url : URL.t) :
  redirect_url request location = Success url ->
  allowed_scheme (URL.scheme url) = true ->
  (forall chunks, Request.body request <> Request.OneShot chunks) ->
  exists next, build_redirect_request jar request status location = Success next.
Proof.
  intros Hurl Hs Hbody. unfold build_redirect_request. rewrite Hurl, Hs.
  cbn [negb]. unfold redirect_body.
  destruct (body_dropped status (Request.method request)); [eauto|].
  destruct (Request.body request) eqn:E; eauto.
  exfalso. eapply Hbody. reflexivity.
Qed.

Lemma merge_cookies_keeps_authorization (jar : Jar) (url : URL.t) (hs : Headers.t) :
  Headers.get_list "Authorization" (merge_cookies jar url hs)
  = Headers.get_list "Authorization" hs.
Proof.
  unfold merge_cookies. destruct (cookies_for jar (URL.origin url)); [reflexivity|].
  apply HeadersFacts.get_list_set_other. reflexivity.
Qed.

(** C1: in the follow-up request of a redirect, when the origin (scheme,
    host, port) of the resolved target differs from the origin of the
    original request there is no [Authorization] header left, whatever the
    original request carried; when the origins are equal the [Authorization]
    values are those of the original request, unchanged. *)
Theorem authorization_follows_origin
  (jar : Jar) (request : Request.t) (status : Z) (location : string)
  (next : Request.t) :
  build_redirect_request jar request status location = Success next ->
  (URL.origin (Request.url next) <> URL.origin (Request.url request) ->
   Headers.get_list "Authorization" (Request.headers next) = []
   /\ Headers.get "Authorization" (Request.headers next) = None)
  /\ (URL.origin (Request.url next) = URL.origin (Request.url request) ->
      Headers.get_list "Authorization" (Request.headers next)
      = Headers.get_list "Authorization" (Request.headers request)
      /\ Headers.get "Authorization" (Request.headers next)
         = Headers.get "Authorization" (Request.headers request)).
Proof.
  intros Hbuild.
  destruct (build_redirect_request_inv _ _ _ _ _ Hbuild)
    as (url & body & _ & _ & _ & ->).
  cbn [Request.url Request.headers]. unfold Headers.get, resolve_cookies.
  rewrite merge_cookies_keeps_authorization.
  rewrite HeadersFacts.get_list_remove_other by reflexivity.
  split; intros Ho.
  - apply URLFacts.same_origin_false_iff in Ho. rewrite Ho. cbn [negb].
    unfold redirect_headers.
    rewrite HeadersFacts.get_list_remove_other by reflexivity.
    rewrite HeadersFacts.get_list_remove_same. split; reflexivity.
  - apply URLFacts.same_origin_iff in Ho. rewrite Ho. cbn [negb].
    unfold redirect_headers.
    destruct (body_dropped status (Request.method request)); [|split; reflexivity].
    rewrite !HeadersFacts.get_list_remove_other by reflexivity.
    split; reflexivity.
Qed.

(** C2: in the follow-up request of a redirect,
    - after 301 or 302, a POST has become a GET without body, and any other
      method, HEAD included, is kept, with the body;
    - after 303, every method but HEAD has become GET, HEAD is kept, and
      there is no body;
    - after 307 or 308, the method and the body are those of the original
      request. *)
Theorem redirect_rewrites_method_and_body
  (jar : Jar) (request : Request.t) (status : Z) (location : string)
  (next : Request.t) :
  build_redirect_request jar request status location = Success next ->
  (status = 301%Z \/ status = 302%Z ->
   (Request.method request = "POST"%string ->
    Request.method next = "GET"%string /\ Request.body next = Request.Empty)
   /\ (Request.method request <> "POST"%string ->
       Request.method next = Request.method request
       /\ Request.body next = Request.body request))
  /\ (status = 303%Z ->
      (Request.method request = "HEAD"%string ->
       Request.method next = "HEAD"%string)
      /\ (Request.method request <> "HEAD"%string ->
          Request.method next = "GET"%string)
      /\ Request.body next = Request.Empty)
  /\ (status = 307%Z \/ status = 308%Z ->
      Request.method next = Request.method request
      /\ Request.body next = Request.body request).
Proof.
  intros Hbuild.
  destruct (build_redirect_request_inv _ _ _ _ _ Hbuild)
    as (url & body & _ & _ & Hbody & ->).
  clear Hbuild. cbn [Request.method Request.body].
  unfold redirect_body, body_dropped, redirect_method in *.
  split; [|split].
  - intros Hst.
    assert (Hb : ((status =? 301) || (status =? 302))%Z = true)
      by (destruct Hst as [-> | ->]; reflexivity).
    rewrite Hb in *. split.
    + intros Hm. rewrite Hm in *. cbn in Hbody |- *. split; congruence.
    + intros Hm. apply String.eqb_neq in Hm. rewrite Hm in *.
      rewrite String.eqb_refl in Hbody. cbn [negb andb] in Hbody.
      split; [reflexivity|].
      destruct (Request.body request); congruence.
  - intros ->. cbn in *. split; [|split].
    + intros ->. reflexivity.
    + intros Hm. apply String.eqb_neq in Hm. rewrite Hm. reflexivity.
    + congruence.
  - intros Hst.
    assert (Hb : ((status =? 301) || (status =? 302))%Z = false
                 /\ (status =? 303)%Z = false)
      by (destruct Hst as [-> | ->]; split; reflexivity).
    destruct Hb as [Hb1 Hb2]. rewrite Hb1, Hb2 in *.
    split; [reflexivity|].
    destruct (Request.body request); congruence.
Qed.

(** Every redirect that is followed adds one response to the history. *)
Lemma chain_history
  (policy : Policy) (transport : Transport) (n : nat) (p q : position) :
  chain policy transport n p q ->
  length (history q) = length (history p) + n.
Proof.
  induction 1 as [p|n p q r response Hadv _ IH]; [lia|].
  rewrite IH. unfold advance in Hadv.
  destruct (transport (request p)) as [msg|reply]; [discriminate|].
  destruct (redirect_location (reply_status reply) (reply_headers reply));
    [|discriminate].
  destruct (negb (allow_redirects policy)); [discriminate|].
  destruct (build_redirect_request _ _ _ _); [|discriminate].
  injection Hadv as _ <-. cbn [history]. rewrite length_app. cbn. lia.
Qed.

(** The history of a final response is the history of its position. *)
Lemma advance_final_history
  (policy : Policy) (transport : Transport) (p : position)
  (response : Response.t) (jar' : Jar) :
  advance policy transport p = Final response jar' ->
  Response.history response = history p.
Proof.
  unfold advance.
  destruct (transport (request p)) as [msg|reply]; [discriminate|].
  destruct (redirect_location (reply_status reply) (reply_headers reply)).
  - destruct (negb (allow_redirects policy)).
    + intros [= <- _]. reflexivity.
    + destruct (build_redirect_request _ _ _ _); discriminate.
  - intros [= <- _]. reflexivity.
Qed.

(** A chain that stays within the ceiling is followed to its end. *)
Lemma run_within_ceiling
  (policy : Policy) (transport : Transport) (n : nat) (p q : position)
  (response : Response.t) (jar' : Jar) :
  chain policy transport n p q ->
  advance policy transport q = Final response jar' ->
  forall c fuel,
    c + n <= max_redirects policy ->
    n < fuel ->
    run fuel policy transport {| current := p; counter := c |}
    = Some (Success (response, jar')).
Proof.
  intros Hchain Hfinal.
  induction Hchain as [p|n p q r resp Hadv _ IH]; intros c fuel Hc Hfuel.
  - destruct fuel as [|fuel]; [lia|]. cbn [run]. unfold step. cbn [current].
    rewrite Hfinal. reflexivity.
  - destruct fuel as [|fuel]; [lia|]. cbn [run]. unfold step.
    cbn [current counter]. rewrite Hadv.
    replace (max_redirects policy <? S c) with false
      by (symmetry; apply Nat.ltb_ge; lia).
    apply IH; [exact Hfinal|lia|lia].
Qed.

(** A chain longer than the ceiling is cut when the counter passes it. *)
Lemma run_beyond_ceiling
  (policy : Policy) (transport : Transport) (n : nat) (p q : position) :
  chain policy transport n p q ->
  forall c fuel,
    max_redirects policy < c + n ->
    c <= max_redirects policy ->
    max_redirects policy - c < fuel ->
    run fuel policy transport {| current := p; counter := c |}
    = Some (Failure TooManyRedirects).
Proof.
  induction 1 as [p|n p q r resp Hadv _ IH]; intros c fuel Hover Hc Hfuel.
  - lia.
  - destruct fuel as [|fuel]; [lia|]. cbn [run]. unfold step.
    cbn [current counter]. rewrite Hadv.
    destruct (max_redirects policy <? S c) eqn:E; [reflexivity|].
    apply Nat.ltb_ge in E. apply IH; lia.
Qed.

(** The loop of [send] always ends within its fuel. *)
Lemma run_returns (policy : Policy) (transport : Transport) (fuel : nat) (st : state) :
  max_redirects policy - counter st < fuel ->
  counter st <= max_redirects policy ->
  exists r, run fuel policy transport st = Some r.
Proof.
  revert st. induction fuel as [|fuel IH]; intros st Hfuel Hc; [lia|].
  cbn [run]. unfold step.
  destruct (advance policy transport (current st)) as [response jar'|e|response next];
    [eauto|eauto|].
  destruct (max_redirects policy <? S (counter st)) eqn:E; [eauto|].
  apply Nat.ltb_ge in E. apply IH; cbn [counter]; lia.
Qed.

Lemma send_returns
  (policy : Policy) (transport : Transport) (jar0 : Jar) (request0 : Request.t) :
  exists r, send policy transport jar0 request0 = Some r.
Proof.
  unfold send. destruct (negb (allowed_scheme _)); [eauto|].
  apply run_returns; cbn [counter]; lia.
Qed.

(** C3: every classification and rewrite that is followed adds one to the
    counter.  For a request with an allowed scheme whose chain has [n]
    redirects -- whether or not a URL comes back in it, the URLs are never
    compared --
    - if [n] is more than the maximum, [send] ends with TooManyRedirects;
    - if [n] is at most the maximum (exactly the maximum included) and the
      chain ends on a final response, [send] returns that response, with the
      [n] responses of the chain as its history. *)
Theorem redirect_count_ceiling
  (policy : Policy) (transport : Transport) (jar0 : Jar) (request0 : Request.t)
  (n : nat) (q : position) :
  allowed_scheme (URL.scheme (Request.url request0)) = true ->
  chain policy transport n (initial jar0 request0) q ->
  (forall st st',
      step policy transport st = Continue st' -> counter st' = S (counter st))
  /\ (max_redirects policy < n ->
      send policy transport jar0 request0 = Some (Failure TooManyRedirects))
  /\ (n <= max_redirects policy ->
      forall response jar',
        advance policy transport q = Final response jar' ->
        send policy transport jar0 request0 = Some (Success (response, jar'))
        /\ length (Response.history response) = n).
Proof.
  intros Hscheme Hchain. split; [|split].
  - intros st st'. unfold step.
    destruct (advance policy transport (current st)); try discriminate.
    destruct (max_redirects policy <? S (counter st)); [discriminate|].
    intros [= <-]. reflexivity.
  - intros Hover. unfold send. rewrite Hscheme. cbn [negb].
    apply (run_beyond_ceiling _ _ _ _ _ Hchain); lia.
  - intros Hle response jar' Hfinal. split.
    + unfold send. rewrite Hscheme. cbn [negb].
      apply (run_within_ceiling _ _ _ _ _ _ _ Hchain Hfinal); lia.
    + rewrite (advance_final_history _ _ _ _ _ Hfinal).
      rewrite (chain_history _ _ _ _ _ Hchain). reflexivity.
Qed.

End WithCollaborators.

Import Doubles.

(** [test_cross_domain_redirect_with_auth_header] and
    [test_same_domain_redirect]: the redirect of [/cross_domain] to
    [https://example.org/cross_domain_target], asked of [example.com] and of
    [example.org]. *)
Lemma authorization_follows_origin_witness :
  let headers := [("Authorization", "abc")]%string in
  let request host := request_for "GET" host "/cross_domain" "" headers Request.Empty in
  let next headers' :=
    request_for "GET" "example.org" "/cross_domain_target" "" headers' Request.Empty in
  let location := "https://example.org/cross_domain_target"%string in
  build_redirect_request tt (request "example.com"%string) 303 location
  = Success (next [])
  /\ Headers.get "Authorization" (Request.headers (next [])) = None
  /\ build_redirect_request tt (request "example.org"%string) 303 location
     = Success (next headers)
  /\ Headers.get "Authorization" (Request.headers (next headers)) = Some "abc"%string.
Proof.
  cbv zeta. split; [reflexivity|]. split; [|split; [reflexivity|]].
  - refine (proj2 (proj1 (authorization_follows_origin tt
              (request_for "GET" "example.com" "/cross_domain" ""
                 [("Authorization", "abc")]%string Request.Empty)
              303 "https://example.org/cross_domain_target"
              (request_for "GET" "example.org" "/cross_domain_target" "" []
                 Request.Empty)
              eq_refl) _)).
    vm_compute. discriminate.
  - refine (eq_trans
              (proj2 (proj2 (authorization_follows_origin tt
                 (request_for "GET" "example.org" "/cross_domain" ""
                    [("Authorization", "abc")]%string Request.Empty)
                 303 "https://example.org/cross_domain_target"
                 (request_for "GET" "example.org" "/cross_domain_target" ""
                    [("Authorization", "abc")]%string Request.Empty)
                 eq_refl) eq_refl)) _).
    reflexivity.
Defined.

(** A POST with a body answered by 301 and by 307, and a GET answered by
    303, each with [Location: /redirect_body_target]. *)
Lemma redirect_rewrites_method_and_body_witness :
  let request method body :=
    request_for method "example.org" "/redirect_body" "" [] body in
  let next method body :=
    request_for method "example.org" "/redirect_body_target" "" [] body in
  let data := Request.Fixed [x45; x78] in
  let location := "/redirect_body_target"%string in
  build_redirect_request tt (request "POST"%string data) 301 location
  = Success (next "GET"%string Request.Empty)
  /\ build_redirect_request tt (request "POST"%string data) 307 location
     = Success (next "POST"%string data)
  /\ build_redirect_request tt (request "GET"%string Request.Empty) 303 location
     = Success (next "GET"%string Request.Empty)
  /\ (Request.method (next "GET"%string Request.Empty) = "GET"%string
      /\ Request.body (next "GET"%string Request.Empty) = Request.Empty)
  /\ (Request.method (next "POST"%string data) = Request.method (request "POST"%string data)
      /\ Request.body (next "POST"%string data) = Request.body (request "POST"%string data))
  /\ Request.method (next "GET"%string Request.Empty) = "GET"%string.
Proof.
  cbv zeta. split; [reflexivity|]. split; [reflexivity|]. split; [reflexivity|].
  split; [|split].
  - exact (proj1 (proj1 (redirect_rewrites_method_and_body tt
             (request_for "POST" "example.org" "/redirect_body" "" []
                (Request.Fixed [x45; x78]))
             301 "/redirect_body_target"
             (request_for "GET" "example.org" "/redirect_body_target" "" []
                Request.Empty)
             eq_refl) (or_introl eq_refl)) eq_refl).
  - exact (proj2 (proj2 (redirect_rewrites_method_and_body tt
             (request_for "POST" "example.org" "/redirect_body" "" []
                (Request.Fixed [x45; x78]))
             307 "/redirect_body_target"
             (request_for "POST" "example.org" "/redirect_body_target" "" []
                (Request.Fixed [x45; x78]))
             eq_refl)) (or_introl eq_refl)).
  - refine (proj1 (proj2 (proj1 (proj2 (redirect_rewrites_method_and_body tt
             (request_for "GET" "example.org" "/redirect_body" "" [] Request.Empty)
             303 "/redirect_body_target"
             (request_for "GET" "example.org" "/redirect_body_target" "" []
                Request.Empty)
             eq_refl)) eq_refl)) _).
    discriminate.
Defined.

(** With a maximum of 3: [/multiple_redirects?count=3] is followed to its
    end, [/multiple_redirects?count=4] is not, and neither is
    [/redirect_loop], which redirects to itself. *)
Lemma redirect_count_ceiling_witness :
  let policy := {| allow_redirects := true; max_redirects := 3 |} in
  let request path query := request_for "GET" "example.org" path query [] Request.Empty in
  (exists response,
      send policy redirects tt (request "/multiple_redirects" "count=3")%string
      = Some (Success (response, tt))
      /\ Response.status_code response = 200%Z
      /\ length (Response.history response) = 3)
  /\ send policy redirects tt (request "/multiple_redirects" "count=4")%string
     = Some (Failure TooManyRedirects)
  /\ send policy redirects tt (request "/redirect_loop" "")%string
     = Some (Failure TooManyRedirects).
Proof.
  cbv zeta. split; [|split].
  - assert (exists q,
               chain {| allow_redirects := true; max_redirects := 3 |} redirects 3
                 (initial tt (request_for "GET" "example.org" "/multiple_redirects"
                                "count=3" [] Request.Empty)) q
               /\ exists response,
                   advance {| allow_redirects := true; max_redirects := 3 |}
                     redirects q = Final response tt
                   /\ Response.status_code response = 200%Z)
      as (q & Hchain & response & Hfinal & Hstatus).
    { eexists. split.
      - do 3 chain_step. apply chain_0.
      - eexists. split; vm_compute; reflexivity. }
    exists response.
    destruct (@redirect_count_ceiling toy_parser empty_jar
                {| allow_redirects := true; max_redirects := 3 |} redirects tt
                (request_for "GET" "example.org" "/multiple_redirects" "count=3" [] Request.Empty)
                3 q eq_refl Hchain) as (_ & _ & H).
    destruct (H ltac:(cbn; lia) _ _ Hfinal) as [Hsend Hlen]. auto.
  - assert (exists q,
               chain {| allow_redirects := true; max_redirects := 3 |} redirects 4
                 (initial tt (request_for "GET" "example.org" "/multiple_redirects"
                                "count=4" [] Request.Empty)) q)
      as (q & Hchain).
    { eexists. do 4 chain_step. apply chain_0. }
    destruct (@redirect_count_ceiling toy_parser empty_jar
                {| allow_redirects := true; max_redirects := 3 |} redirects tt
                (request_for "GET" "example.org" "/multiple_redirects" "count=4" [] Request.Empty)
                4 q eq_refl Hchain) as (_ & H & _).
    apply H. cbn. lia.
  - assert (exists q,
               chain {| allow_redirects := true; max_redirects := 3 |} redirects 4
                 (initial tt (request_for "GET" "example.org" "/redirect_loop"
                                "" [] Request.Empty)) q)
      as (q & Hchain).
    { eexists. do 4 chain_step. apply chain_0. }
    destruct (@redirect_count_ceiling toy_parser empty_jar
                {| allow_redirects := true; max_redirects := 3 |} redirects tt
                (request_for "GET" "example.org" "/redirect_loop" "" [] Request.Empty)
                4 q eq_refl Hchain) as (_ & H & _).
    apply H. cbn. lia.
Defined.

(** The runs of the test-suite, with its maximum of 20. *)
Example test_multiple_redirects :
  observed (send client redirects tt
              (request_for "GET" "example.org" "/multiple_redirects" "count=20" []
                 Request.Empty))
  = Some (Success (200%Z, https "example.org" "/multiple_redirects" "",
                   "GET"%string, [], 20)).
Proof. vm_compute. reflexivity. Qed.

Example test_sync_too_many_redirects :
  observed (send client redirects tt
              (request_for "GET" "example.org" "/multiple_redirects" "count=21" []
                 Request.Empty))
  = Some (Failure TooManyRedirects).
Proof. vm_compute. reflexivity. Qed.

Example test_redirect_loop :
  observed (send client redirects tt
              (request_for "GET" "example.org" "/redirect_loop" "" [] Request.Empty))
  = Some (Failure TooManyRedirects).
Proof. vm_compute. reflexivity. Qed.

Example test_cross_domain_redirect_with_auth_header :
  observed (send client redirects tt
              (request_for "GET" "example.com" "/cross_domain" ""
                 [("Authorization", "abc")]%string Request.Empty))
  = Some (Success (200%Z, https "example.org" "/cross_domain_target" "",
                   "GET"%string, [], 1)).
Proof. vm_compute. reflexivity. Qed.

Example test_redirect_cookie_behavior :
  let url path := Doubles.request_for "GET" "example.com" path "" [] Request.Empty in
  let post path := request_for "POST" "example.com" path "" [] Request.Empty in
  MoreDoubles.session MoreDoubles.cookie_sessions ""
    [url "/"; post "/login"; url "/"; post "/logout"; url "/"]%string
  = [Some "Not logged in"; Some "Logged in"; Some "Logged in";
     Some "Not logged in"; Some "Not logged in"]%string.
Proof. vm_compute. reflexivity. Qed.

Example test_same_domain_redirect :
  observed (send client redirects tt
              (request_for "GET" "example.org" "/cross_domain" ""
                 [("Authorization", "abc")]%string Request.Empty))
  = Some (Success (200%Z, https "example.org" "/cross_domain_target" "",
                   "GET"%string, [("Authorization", "abc")]%string, 1)).
Proof. vm_compute. reflexivity. Qed.

End RedirectEngineFacts.

(* ================================================================== *)
(** * Further properties *)
(* ================================================================== *)

(** ** LineDecoder *)

Module LineDecoderMore.
Import LineDecoder LineDecoderModel LineDecoderFacts Newlines.

(** X1: from any state, decoding a text and then another gives the lines and
    leaves the object that decoding the two texts joined gives. *)
Theorem decode_app (self : t) (s t : str) :
  decode self (s ++ t)
  = match decode self s with
    | Some (lines, self') =>
        match decode self' t with
        | Some (lines', self'') => Some (lines ++ lines', self'')
        | None => None
        end
    | None => None
    end.
Proof.
  rewrite (decode_feed self s). cbv iota beta. rewrite !decode_feed.
  cbn [buffer]. rewrite feed_chars_app. reflexivity.
Qed.

(** All that comes out of a decoder holding [pending] when [text] arrives
    and the stream ends: the lines, joined. *)
Lemma joined_output (text : str) :
  (forall pending,
      endswith_cr pending = false ->
      concat (fst (feed_chars pending text))
      ++ concat (fst (flush {| buffer := snd (feed_chars pending text) |}))
      = pending ++ universal_newlines text)
  /\ (forall pending,
      concat (fst (feed_chars (pending ++ [CR]) text))
      ++ concat (fst (flush {| buffer := snd (feed_chars (pending ++ [CR]) text) |}))
      = pending ++ universal_newlines (CR :: text)).
Proof.
  induction text as [|c text [IHa IHb]].
  - split; intros pending.
    + intros Hcr. cbn [feed_chars fst snd concat app]. unfold flush.
      cbn [buffer fst]. rewrite Hcr.
      destruct pending; cbn; rewrite ?app_nil_r; reflexivity.
    + cbn [feed_chars fst snd concat app]. unfold flush. cbn [buffer fst].
      rewrite endswith_cr_snoc, removelast_last. cbn. rewrite app_nil_r.
      reflexivity.
  - assert (Hone : forall d,
               (d =? LF)%char = false ->
               concat (fst (feed_chars [d] text))
               ++ concat (fst (flush {| buffer := snd (feed_chars [d] text) |}))
               = universal_newlines (d :: text)).
    { intros d Hd. destruct (d =? CR)%char eqn:Hcr.
      - apply Ascii.eqb_eq in Hcr. subst d. apply (IHb []).
      - rewrite (IHa [d]) by (exact (eq_trans (endswith_cr_snoc [] d) Hcr)).
        cbn [universal_newlines]. rewrite Hcr. reflexivity. }
    split; intros pending.
    + intros Hcr. rewrite feed_chars_cons, (feed_char_plain _ _ Hcr).
      destruct (c =? LF)%char eqn:Hlf; cbn [fst snd concat app].
      * apply Ascii.eqb_eq in Hlf. subst c.
        rewrite <- !app_assoc, (IHa [] eq_refl). reflexivity.
      * destruct (c =? CR)%char eqn:Hc.
        -- apply Ascii.eqb_eq in Hc. subst c. apply IHb.
        -- rewrite IHa by (rewrite endswith_cr_snoc; exact Hc).
           cbn [universal_newlines]. rewrite Hc, <- app_assoc. reflexivity.
    + rewrite feed_chars_cons, feed_char_after_cr. cbn [fst snd].
      change ([pending ++ [LF]] ++ ?l) with ((pending ++ [LF]) :: l).
      cbn [concat]. rewrite <- !app_assoc. f_equal.
      cbn [universal_newlines]. rewrite Ascii.eqb_refl.
      destruct (c =? LF)%char eqn:Hlf.
      * cbn [app]. f_equal. apply (IHa [] eq_refl).
      * cbn [app]. f_equal. apply Hone. exact Hlf.
Qed.

(** X2: however a text is cut into chunks, the lines a fresh decoder
    returns for the chunks and for [flush], joined, are the text with every
    "\r\n" and every other "\r" replaced by "\n": no other character is
    added, dropped or moved. *)
Theorem joined_lines_are_universal_newlines (chunks : list str) :
  exists lines,
    decode_then_flush init chunks = Some lines
    /\ concat lines = universal_newlines (concat chunks).
Proof.
  unfold decode_then_flush. rewrite decode_chunks_feed. cbn [buffer init].
  eexists. split; [reflexivity|].
  rewrite concat_app.
  apply (proj1 (joined_output (concat chunks)) [] eq_refl).
Qed.

Lemma universal_newlines_no_cr (text : str) :
  no_cr text = true -> universal_newlines text = text.
Proof.
  induction text as [|c text IH]; [reflexivity|].
  cbn [no_cr forallb universal_newlines]. intros H.
  apply andb_true_iff in H. destruct H as [Hc Ht].
  apply negb_true_iff in Hc. rewrite Hc, (IH Ht). reflexivity.
Qed.

(** X3: a text without "\r", cut into chunks at will, comes back whole:
    the lines returned for the chunks and for [flush], joined, are the
    text. *)
Theorem lines_of_text_without_cr (chunks : list str) :
  no_cr (concat chunks) = true ->
  exists lines,
    decode_then_flush init chunks = Some lines
    /\ concat lines = concat chunks.
Proof.
  intros Hcr. unfold decode_then_flush. rewrite decode_chunks_feed.
  cbn [buffer init]. eexists. split; [reflexivity|].
  rewrite concat_app, (proj1 (joined_output (concat chunks)) [] eq_refl).
  apply universal_newlines_no_cr. exact Hcr.
Qed.

(** "a\nbc" cut after the "b". *)
Lemma lines_of_text_without_cr_witness :
  let a := "a"%char in
  let b := "b"%char in
  let c := "c"%char in
  let chunks := [[a; LF; b]; [c]] in
  no_cr (concat chunks) = true
  /\ decode_then_flush init chunks = Some [[a; LF]; [b; c]]
  /\ exists lines,
       decode_then_flush init chunks = Some lines
       /\ concat lines = concat chunks.
Proof.
  cbv zeta. split; [reflexivity|]. split; [reflexivity|].
  apply lines_of_text_without_cr. reflexivity.
Defined.

Lemma plain_app (a b : str) : plain (a ++ b) = plain a && plain b.
Proof. apply forallb_app. Qed.

Lemma plain_not_endswith_cr (s : str) : plain s = true -> endswith_cr s = false.
Proof.
  destruct s as [|c s] using rev_ind; [reflexivity|].
  rewrite plain_app, endswith_cr_snoc. cbn. rewrite andb_true_r.
  intros H. apply andb_true_iff in H. destruct H as [_ H].
  apply andb_true_iff in H. destruct H as [_ H].
  apply negb_true_iff in H. exact H.
Qed.

(** Pending text that does not end in "\r" is plain. *)
Lemma pending_ok_plain (pending : str) :
  pending_ok pending = true -> endswith_cr pending = false -> plain pending = true.
Proof.
  unfold pending_ok. intros H Hcr. rewrite Hcr in H. cbn in H.
  rewrite orb_false_r in H. exact H.
Qed.

Lemma pending_ok_cr (pending : str) :
  pending_ok pending = true -> endswith_cr pending = true ->
  plain (removelast pending) = true.
Proof.
  unfold pending_ok. intros H Hcr. apply orb_true_iff in H.
  destruct H as [H|H].
  - rewrite (plain_not_endswith_cr _ H) in Hcr. discriminate.
  - apply andb_true_iff in H. apply H.
Qed.

Lemma complete_line_snoc (s : str) : plain s = true -> complete_line (s ++ [LF]) = true.
Proof.
  intros H. unfold complete_line. rewrite last_last, removelast_last, H.
  destruct s; reflexivity.
Qed.

Lemma pending_ok_single (c : ascii) : (c =? LF)%char = false -> pending_ok [c] = true.
Proof.
  intros H. unfold pending_ok, plain, endswith_cr, last_is_cr.
  cbn. rewrite H. cbn. destruct (c =? CR)%char; reflexivity.
Qed.

(** One character keeps the pending text well-formed and completes only
    well-formed lines. *)
Lemma feed_char_lines (pending : str) (c : ascii) :
  pending_ok pending = true ->
  forallb complete_line (fst (feed_char pending c)) = true
  /\ pending_ok (snd (feed_char pending c)) = true.
Proof.
  intros Hok. unfold feed_char.
  destruct (endswith_cr pending) eqn:Hcr.
  - pose proof (pending_ok_cr _ Hok Hcr) as Hp.
    destruct (c =? LF)%char eqn:Hlf; cbn [fst snd forallb];
      rewrite (complete_line_snoc _ Hp); split; try reflexivity.
    apply pending_ok_single. exact Hlf.
  - pose proof (pending_ok_plain _ Hok Hcr) as Hp.
    destruct (c =? LF)%char eqn:Hlf; cbn [fst snd forallb].
    + rewrite (complete_line_snoc _ Hp). split; reflexivity.
    + split; [reflexivity|]. unfold pending_ok.
      rewrite plain_app, endswith_cr_snoc, removelast_last, Hp. cbn.
      rewrite Hlf. cbn. destruct (c =? CR)%char; reflexivity.
Qed.

Lemma feed_chars_lines (text pending : str) :
  pending_ok pending = true ->
  forallb complete_line (fst (feed_chars pending text)) = true
  /\ pending_ok (snd (feed_chars pending text)) = true.
Proof.
  revert pending. induction text as [|c text IH]; intros pending Hok.
  - cbn. auto.
  - rewrite feed_chars_cons. cbn [fst snd].
    destruct (feed_char_lines pending c Hok) as [Hl Hp].
    destruct (IH _ Hp) as [Hl' Hp'].
    rewrite forallb_app, Hl, Hl'. auto.
Qed.

(** X4: whatever the chunks given to a fresh decoder, every line that
    [decode] returns is plain text (no "\r", no "\n") followed by one "\n",
    and the line that [flush] may return is such a line or plain text that
    is not empty. *)
Theorem lines_are_normalised (chunks : list str) :
  exists lines self',
    decode_chunks init chunks = Some (lines, self')
    /\ forallb complete_line lines = true
    /\ forallb last_line (fst (flush self')) = true.
Proof.
  rewrite decode_chunks_feed. cbn [buffer init].
  destruct (feed_chars_lines (concat chunks) [] eq_refl) as [Hl Hp].
  eexists. eexists. split; [reflexivity|]. split; [exact Hl|].
  unfold flush. cbn [buffer fst].
  destruct (endswith_cr (snd (feed_chars [] (concat chunks)))) eqn:Hcr.
  - cbn [forallb]. unfold last_line.
    rewrite (complete_line_snoc _ (pending_ok_cr _ Hp Hcr)). reflexivity.
  - destruct (truthy (snd (feed_chars [] (concat chunks)))) eqn:Ht;
      [|reflexivity].
    cbn [forallb]. unfold last_line.
    rewrite Ht, (pending_ok_plain _ Hp Hcr), orb_true_r. reflexivity.
Qed.

(** X18: from any state, once a text that ends with "\n" is decoded
    nothing is pending: the decoder is as a new one, and [flush] returns no
    line. *)
Theorem nothing_pending_after_newline (self : t) (text : str) :
  exists lines,
    decode self (text ++ [LF]) = Some (lines, init)
    /\ flush init = ([], init).
Proof.
  rewrite decode_feed, feed_chars_app. cbn [fst snd].
  eexists. split; [|reflexivity]. f_equal. f_equal.
  cbn [feed_chars]. unfold feed_char.
  destruct (endswith_cr (snd (feed_chars (buffer self) text))); reflexivity.
Qed.

End LineDecoderMore.

(** ** Content decoders *)

Module ContentDecodersMore.
Import Raises.

Section WithZlib.
Context {zlib : Zlib}.


(** X6: no [zlib.error] leaves [DeflateDecoder] or [GZipDecoder]: whatever
    the engine does, [decode] and [flush] of both end with something
    else. *)
Theorem zlib_error_never_escapes
  (deflate : DeflateDecoder.t) (gzip : GZipDecoder.t) (data : bytes) :
  raises is_ZlibError (snd (DeflateDecoder.decode deflate data)) = false
  /\ raises is_ZlibError (snd (DeflateDecoder.flush deflate)) = false
  /\ raises is_ZlibError (snd (GZipDecoder.decode gzip data)) = false
  /\ raises is_ZlibError (snd (GZipDecoder.flush gzip)) = false.
Proof.
  split; [|split; [|split]].
  - rewrite DeflateDecoderFacts.decode_depth_2.
    cbn [DeflateDecoder.decode_rec DeflateDecoder.first_attempt
           DeflateDecoder.decompressor].
    destruct (decompress (DeflateDecoder.decompressor deflate) data)
      as [d [out|[]]]; try reflexivity.
    destruct (DeflateDecoder.first_attempt deflate); [|reflexivity].
    destruct (decompress (decompressobj (- MAX_WBITS)) data)
      as [d' [out|[]]]; reflexivity.
  - unfold DeflateDecoder.flush.
    destruct (zlib_flush (DeflateDecoder.decompressor deflate))
      as [d [out|[]]]; reflexivity.
  - unfold GZipDecoder.decode.
    destruct (decompress (GZipDecoder.decompressor gzip) data)
      as [d [out|[]]]; reflexivity.
  - unfold GZipDecoder.flush.
    destruct (zlib_flush (GZipDecoder.decompressor gzip))
      as [d [out|[]]]; reflexivity.
Qed.

(** X7: past its first call a [DeflateDecoder] treats a chunk as a
    [GZipDecoder] holding the same decompressor does: same result, same
    decompressor afterwards. *)
Theorem deflate_after_first_call_is_gzip_like
  (d : decompressobj_t) (data : bytes) :
  let deflate := {| DeflateDecoder.first_attempt := false;
                    DeflateDecoder.decompressor := d |} in
  let gzip := {| GZipDecoder.decompressor := d |} in
  snd (DeflateDecoder.decode deflate data) = snd (GZipDecoder.decode gzip data)
  /\ DeflateDecoder.decompressor (fst (DeflateDecoder.decode deflate data))
     = GZipDecoder.decompressor (fst (GZipDecoder.decode gzip data))
  /\ DeflateDecoder.first_attempt (fst (DeflateDecoder.decode deflate data)) = false.
Proof.
  cbv zeta. rewrite DeflateDecoderFacts.decode_not_first by reflexivity.
  unfold DeflateDecoder.final_attempt, GZipDecoder.decode.
  cbn [DeflateDecoder.decompressor GZipDecoder.decompressor].
  destruct (decompress d data) as [d' [out|[]]]; repeat split; reflexivity.
Qed.

End WithZlib.

Section WithBrotli.
Context {brotli : Brotli}.

(** X8: no [brotli.error] leaves [BrotliDecoder]. *)
Theorem brotli_error_never_escapes (self : BrotliDecoder.t) (data : bytes) :
  raises is_BrotliError (snd (BrotliDecoder.decode self data)) = false
  /\ raises is_BrotliError (snd (BrotliDecoder.flush self)) = false.
Proof.
  split.
  - unfold BrotliDecoder.decode. destruct data as [|b data]; [reflexivity|].
    cbn [BrotliDecoder.decompressor BrotliDecoder.seen_data].
    destruct (_decompress (BrotliDecoder.decompressor self) (b :: data))
      as [d [out|[]]]; reflexivity.
  - unfold BrotliDecoder.flush.
    destruct (negb (BrotliDecoder.seen_data self)); [reflexivity|].
    destruct finish as [f|]; [|reflexivity].
    destruct (f (BrotliDecoder.decompressor self)) as [d [u|[]]]; reflexivity.
Qed.

Lemma brotli_empty_chunks (n : nat) (self : BrotliDecoder.t) :
  Calls.decode_chunks self (repeat [] n) = (repeat [] n, self, None).
Proof.
  induction n as [|n IH]; [reflexivity|].
  cbn [repeat Calls.decode_chunks]. cbn. rewrite IH. reflexivity.
Qed.

(** X9: empty chunks leave a [BrotliDecoder] as it is and give empty
    outputs, however many there are; [flush] on a new decoder that was given
    nothing else returns the empty bytes and leaves the engine's object
    untouched; and [flush] never returns anything but the empty bytes. *)
Theorem brotli_empty_body (n : nat) (self : BrotliDecoder.t) :
  Calls.decode_chunks self (repeat [] n) = (repeat [] n, self, None)
  /\ BrotliDecoder.flush
       (snd (fst (Calls.decode_chunks BrotliDecoder.init (repeat [] n))))
     = (BrotliDecoder.init, Ok [])
  /\ (snd (BrotliDecoder.flush self) = Ok []
      \/ exists e, snd (BrotliDecoder.flush self) = Raise e).
Proof.
  split; [apply brotli_empty_chunks|]. split.
  - rewrite brotli_empty_chunks. reflexivity.
  - unfold BrotliDecoder.flush.
    destruct (negb (BrotliDecoder.seen_data self)); [left; reflexivity|].
    destruct finish as [f|]; [|left; reflexivity].
    destruct (f (BrotliDecoder.decompressor self)) as [d [u|e]].
    + left. reflexivity.
    + right. destruct e; eexists; reflexivity.
Qed.

End WithBrotli.
End ContentDecodersMore.

(** ** MultiDecoder *)

Module MultiDecoderMore.
Import ContentDecoder MultiDecoder.

Lemma decode_loop_app (xs ys : list object) (data : bytes) :
  decode_loop (xs ++ ys) data
  = match decode_loop xs data with
    | (xs', Ok out) =>
        let '(ys', r) := decode_loop ys out in (xs' ++ ys', r)
    | (xs', Raise e) => (xs' ++ ys, Raise e)
    end.
Proof.
  revert data. induction xs as [|c xs IH]; intros data.
  - cbn. destruct (decode_loop ys data). reflexivity.
  - cbn [app decode_loop].
    destruct (call_decode c data) as [c' [out|e]]; [|reflexivity].
    rewrite IH. destruct (decode_loop xs out) as [xs' [out'|e]].
    + destruct (decode_loop ys out') as [ys' r]. reflexivity.
    + reflexivity.
Qed.

Lemma flush_loop_app (xs ys : list object) (data : bytes) :
  flush_loop (xs ++ ys) data
  = match flush_loop xs data with
    | (xs', Ok released) =>
        let '(ys', r) := flush_loop ys released in (xs' ++ ys', r)
    | (xs', Raise e) => (xs' ++ ys, Raise e)
    end.
Proof.
  revert data. induction xs as [|c xs IH]; intros data.
  - cbn. destruct (flush_loop ys data). reflexivity.
  - cbn [app flush_loop].
    destruct (call_decode c data) as [c' [out|e]]; [|reflexivity].
    destruct (call_flush c') as [c'' [fl|e]]; [|reflexivity].
    rewrite IH. destruct (flush_loop xs (out ++ fl)) as [xs' [released|e]].
    + destruct (flush_loop ys released) as [ys' r]. reflexivity.
    + reflexivity.
Qed.

(** X10: a [MultiDecoder] for the encodings [first ++ later] (applied in
    that order) decodes as the [MultiDecoder] for [later] followed, on its
    output, by the [MultiDecoder] for [first]; when the former raises, the
    latter is not called.  [flush] composes in the same way, the children of
    [first] going on from what the children of [later] released. *)
Theorem multi_decoder_composes (first later : list object) (data : bytes) :
  decode (init (first ++ later)) data
  = match decode (init later) data with
    | (m, Ok out) =>
        let '(m', r) := decode (init first) out in
        ({| children := children m ++ children m' |}, r)
    | (m, Raise e) =>
        ({| children := children m ++ children (init first) |}, Raise e)
    end
  /\ flush (init (first ++ later))
     = match flush (init later) with
       | (m, Ok released) =>
           let '(cs', r) := flush_loop (children (init first)) released in
           ({| children := children m ++ cs' |}, r)
       | (m, Raise e) =>
           ({| children := children m ++ children (init first) |}, Raise e)
       end.
Proof.
  unfold decode, flush, init. cbn [children]. rewrite rev_app_distr. split.
  - rewrite decode_loop_app.
    destruct (decode_loop (rev later) data) as [cs' [out|e]]; cbn [children].
    + destruct (decode_loop (rev first) out) as [cs'' r]. reflexivity.
    + reflexivity.
  - rewrite flush_loop_app.
    destruct (flush_loop (rev later) []) as [cs' [released|e]]; cbn [children].
    + destruct (flush_loop (rev first) released) as [cs'' r]. reflexivity.
    + reflexivity.
Qed.

(** When the loop of [decode] ends with an exception, it is the exception
    of one child, and the children after that one were left alone. *)
Lemma decode_loop_raise (cs cs' : list object) (data : bytes) (e : exn) :
  decode_loop cs data = (cs', Raise e) ->
  exists before before' c c' after input,
    cs = before ++ c :: after
    /\ cs' = before' ++ c' :: after
    /\ length before' = length before
    /\ call_decode c input = (c', Raise e).
Proof.
  revert cs' data. induction cs as [|c cs IH]; intros cs' data H.
  - discriminate.
  - cbn [decode_loop] in H.
    destruct (call_decode c data) as [c' [out|e']] eqn:Hc.
    + destruct (decode_loop cs out) as [rest' r] eqn:Hrest.
      injection H as <- ->.
      destruct (IH _ _ Hrest)
        as (before & before' & x & x' & after & input & -> & -> & Hlen & Hx).
      exists (c :: before), (c' :: before'), x, x', after, input.
      cbn [length app]. auto.
    + injection H as <- <-.
      exists [], [], c, c', cs, data. auto.
Qed.

Lemma flush_loop_raise (cs cs' : list object) (data : bytes) (e : exn) :
  flush_loop cs data = (cs', Raise e) ->
  exists before before' c c' after,
    cs = before ++ c :: after
    /\ cs' = before' ++ c' :: after
    /\ length before' = length before
    /\ ((exists input, call_decode c input = (c', Raise e))
        \/ (exists input c0 out,
              call_decode c input = (c0, Ok out)
              /\ call_flush c0 = (c', Raise e))).
Proof.
  revert cs' data. induction cs as [|c cs IH]; intros cs' data H.
  - discriminate.
  - cbn [flush_loop] in H.
    destruct (call_decode c data) as [c' [out|e']] eqn:Hc.
    + destruct (call_flush c') as [c'' [fl|e'']] eqn:Hf.
      * destruct (flush_loop cs (out ++ fl)) as [rest' r] eqn:Hrest.
        injection H as <- ->.
        destruct (IH _ _ Hrest)
          as (before & before' & x & x' & after & -> & -> & Hlen & Hx).
        exists (c :: before), (c'' :: before'), x, x', after.
        cbn [length app]. auto.
      * injection H as <- <-.
        exists [], [], c, c'', cs. repeat split; auto.
        right. exists data, c', out. auto.
    + injection H as <- <-.
      exists [], [], c, c', cs. repeat split; auto.
      left. exists data. exact Hc.
Qed.

(** X11: when [decode] or [flush] of a [MultiDecoder] raises, the exception
    is the one a child raised, in its [decode] or its [flush]; the children
    stored after that child were not called, and are as they were. *)
Theorem multi_decoder_stops_at_first_error
  (m m' : t) (data : bytes) (e : exn) :
  (decode m data = (m', Raise e) ->
   exists before before' c c' after input,
     children m = before ++ c :: after
     /\ children m' = before' ++ c' :: after
     /\ length before' = length before
     /\ call_decode c input = (c', Raise e))
  /\ (flush m = (m', Raise e) ->
      exists before before' c c' after,
        children m = before ++ c :: after
        /\ children m' = before' ++ c' :: after
        /\ length before' = length before
        /\ ((exists input, call_decode c input = (c', Raise e))
            \/ (exists input c0 out,
                  call_decode c input = (c0, Ok out)
                  /\ call_flush c0 = (c', Raise e)))).
Proof.
  split; intros H.
  - unfold decode in H.
    destruct (decode_loop (children m) data) as [cs' r] eqn:Hl.
    injection H as <- ->. cbn [children].
    apply (decode_loop_raise _ _ _ _ Hl).
  - unfold flush in H.
    destruct (flush_loop (children m) []) as [cs' r] eqn:Hl.
    injection H as <- ->. cbn [children].
    apply (flush_loop_raise _ _ _ _ Hl).
Qed.

Lemma length_call_decode_loop (cs : list object) (data : bytes) :
  length (fst (decode_loop cs data)) = length cs.
Proof.
  revert data. induction cs as [|c cs IH]; intros data; [reflexivity|].
  cbn [decode_loop]. destruct (call_decode c data) as [c' [out|e]].
  - specialize (IH out). destruct (decode_loop cs out) as [rest' r].
    cbn [fst length] in *. rewrite IH. reflexivity.
  - reflexivity.
Qed.

Lemma length_call_flush_loop (cs : list object) (data : bytes) :
  length (fst (flush_loop cs data)) = length cs.
Proof.
  revert data. induction cs as [|c cs IH]; intros data; [reflexivity|].
  cbn [flush_loop]. destruct (call_decode c data) as [c' [out|e]].
  - destruct (call_flush c') as [c'' [fl|e]]; [|reflexivity].
    specialize (IH (out ++ fl)). destruct (flush_loop cs (out ++ fl)) as [rest' r].
    cbn [fst length] in *. rewrite IH. reflexivity.
  - reflexivity.
Qed.

(** X12: [decode] and [flush] never add or drop a child: however they end,
    the [MultiDecoder] has as many children afterwards as before. *)
Theorem multi_decoder_keeps_its_children (m : t) (data : bytes) :
  length (children (fst (decode m data))) = length (children m)
  /\ length (children (fst (flush m))) = length (children m).
Proof.
  split.
  - unfold decode. pose proof (length_call_decode_loop (children m) data) as H.
    destruct (decode_loop (children m) data). exact H.
  - unfold flush. pose proof (length_call_flush_loop (children m) []) as H.
    destruct (flush_loop (children m) []). exact H.
Qed.

Lemma identity_decode_loop (n : nat) (data : bytes) :
  decode_loop (repeat Objects.identity n) data
  = (repeat Objects.identity n, Ok data).
Proof.
  induction n as [|n IH]; [reflexivity|].
  cbn [repeat decode_loop]. cbn. rewrite IH. reflexivity.
Qed.

Lemma identity_flush_loop (n : nat) (data : bytes) :
  flush_loop (repeat Objects.identity n) data
  = (repeat Objects.identity n, Ok data).
Proof.
  induction n as [|n IH]; [reflexivity|].
  cbn [repeat flush_loop]. cbn. rewrite app_nil_r, IH. reflexivity.
Qed.

(** X13: a [MultiDecoder] of identity decoders, however many (none
    included), is an identity decoder: [decode] returns its chunk and
    [flush] returns the empty bytes. *)
Theorem multi_decoder_of_identities (n : nat) (data : bytes) :
  let m := init (repeat Objects.identity n) in
  decode m data = (m, Ok data) /\ flush m = (m, Ok []).
Proof.
  cbv zeta. unfold init, decode, flush. cbn [children].
  rewrite rev_repeat, identity_decode_loop, identity_flush_loop. auto.
Qed.

Import Doubles MoreDoubles.

(** A gzip decoder given a stream without header, before an identity
    decoder; and the end of a body that stops in the middle of a brotli
    stream. *)
Lemma multi_decoder_stops_at_first_error_witness :
  let m := {| children := [Objects.gzip; Objects.identity] |} in
  let m2 := {| children := [brotli_mid_stream; Objects.identity] |} in
  snd (decode m [x01])
  = Raise (ValueError "Error -3 while decompressing data: incorrect header check")
  /\ snd (flush m2)
     = Raise (ValueError "decompression error: incomplete stream")
  /\ (exists before before' c c' after input,
        children m = before ++ c :: after
        /\ children (fst (decode m [x01])) = before' ++ c' :: after
        /\ length before' = length before
        /\ call_decode c input
           = (c', Raise (ValueError
                          "Error -3 while decompressing data: incorrect header check")))
  /\ (exists before before' c c' after,
        children m2 = before ++ c :: after
        /\ children (fst (flush m2)) = before' ++ c' :: after
        /\ length before' = length before
        /\ ((exists input,
               call_decode c input
               = (c', Raise (ValueError "decompression error: incomplete stream")))
            \/ (exists input c0 out,
                  call_decode c input = (c0, Ok out)
                  /\ call_flush c0
                     = (c', Raise (ValueError
                                    "decompression error: incomplete stream"))))).
Proof.
  cbv zeta. split; [reflexivity|]. split; [reflexivity|]. split.
  - exact (proj1 (multi_decoder_stops_at_first_error
                    {| children := [Objects.gzip; Objects.identity] |}
                    (fst (decode {| children := [Objects.gzip; Objects.identity] |}
                            [x01]))
                    [x01]
                    (ValueError
                       "Error -3 while decompressing data: incorrect header check"))
             eq_refl).
  - exact (proj2 (multi_decoder_stops_at_first_error
                    {| children := [brotli_mid_stream; Objects.identity] |}
                    (fst (flush {| children := [brotli_mid_stream; Objects.identity] |}))
                    []
                    (ValueError "decompression error: incomplete stream"))
             eq_refl).
Defined.

End MultiDecoderMore.

(** ** TextDecoder *)

Module TextDecoderMore.
Import TextDecoder Calls Raises.

Section WithEngines.
Context {codecs : Codecs} {chardet : Chardet}.

Lemma except_never_UnicodeDecodeError (r : result str) :
  raises is_UnicodeDecodeError (except_UnicodeDecodeError r) = false.
Proof. destruct r as [text|[]]; reflexivity. Qed.

(** X14: no [UnicodeDecodeError] leaves [TextDecoder]: whatever the codec
    and the detector do, [decode] and [flush] end with something else. *)
Theorem unicode_decode_error_never_escapes (self : t) (c : call) :
  raises is_UnicodeDecodeError (outcome self c) = false.
Proof.
  destruct c as [data|]; cbn [outcome].
  - unfold decode. destruct (decoder self) as [d|].
    + destruct (incremental_decode d data false). cbn [snd].
      apply except_never_UnicodeDecodeError.
    + destruct (buffer self) as [buf|]; [|reflexivity].
      destruct (4096 <=? length (buf ++ data)); [|reflexivity].
      destruct (_detector_result _) as [self' [encoding|e]];
        [|apply except_never_UnicodeDecodeError].
      destruct (getincrementaldecoder encoding) as [d|e];
        [|apply except_never_UnicodeDecodeError].
      destruct (incremental_decode d (buf ++ data) false) as [d' [text|e]];
        [reflexivity|apply except_never_UnicodeDecodeError].
  - unfold flush. destruct (decoder self) as [d|].
    + destruct (incremental_decode d [] true). cbn [snd].
      apply except_never_UnicodeDecodeError.
    + destruct (buffer self) as [buf|]; [|reflexivity].
      destruct (length buf =? 0); [reflexivity|].
      destruct (_detector_result self) as [self' [encoding|e]];
        apply except_never_UnicodeDecodeError.
Qed.

(** One call on a committed decoder. *)
Lemma after_committed (self : t) (c : call) :
  committed self = true ->
  committed (after self c) = true
  /\ detector (after self c) = detector self
  /\ buffer (after self c) = buffer self.
Proof.
  unfold committed. destruct (decoder self) as [d|] eqn:Hd; [|discriminate].
  intros _. destruct c as [data|]; cbn [after].
  - unfold decode. rewrite Hd.
    destruct (incremental_decode d data false). cbn. auto.
  - unfold flush. rewrite Hd.
    destruct (incremental_decode d [] true). cbn. auto.
Qed.

(** X15: a committed decoder stays committed: after any calls of [decode]
    and [flush], those that raised included, it still has its incremental
    decoder, its detector was given nothing and its buffer is what it was.
    With a declared encoding the detector is thus never used. *)
Theorem committed_for_good (self : t) (calls : list call) :
  committed self = true ->
  committed (after_all self calls) = true
  /\ detector (after_all self calls) = detector self
  /\ buffer (after_all self calls) = buffer self.
Proof.
  unfold after_all. revert self. induction calls as [|c calls IH]; intros self H.
  - cbn. auto.
  - cbn [fold_left]. destruct (after_committed self c H) as (Hc & Hd & Hb).
    destruct (IH _ Hc) as (Hc' & Hd' & Hb').
    rewrite Hd', Hb', Hd, Hb. auto.
Qed.

(** One call keeps a decoder or a buffer in the object. *)
Lemma after_has_state (self : t) (c : call) :
  has_state self = true -> has_state (after self c) = true.
Proof.
  unfold has_state.
  destruct (decoder self) as [d|] eqn:Hd.
  - intros _. destruct c as [data|]; cbn [after].
    + unfold decode. rewrite Hd. destruct (incremental_decode d data false).
      reflexivity.
    + unfold flush. rewrite Hd. destruct (incremental_decode d [] true).
      reflexivity.
  - destruct (buffer self) as [buf|] eqn:Hb; [|discriminate].
    intros _. destruct c as [data|]; cbn [after].
    + unfold decode. rewrite Hd, Hb.
      destruct (4096 <=? length (buf ++ data)).
      * unfold _detector_result. cbn [detector decoder buffer].
        destruct (result_encoding (close (feed (detector self) data)))
          as [[|a enc]|]; try reflexivity.
        destruct (getincrementaldecoder (String a enc)) as [d|e];
          [|reflexivity].
        destruct (incremental_decode d (buf ++ data) false) as [d' [text|e]];
          reflexivity.
      * reflexivity.
    + unfold flush. rewrite Hd, Hb.
      destruct (length buf =? 0); [cbn; rewrite Hd, Hb; reflexivity|].
      unfold _detector_result. cbn [detector decoder buffer].
      destruct (result_encoding (close (detector self))) as [[|a enc]|];
        cbn; rewrite Hd, Hb; reflexivity.
Qed.

(** X16: from construction on, after any calls of [decode] and [flush],
    those that raised included, the object holds a decoder or a buffer: the
    assertions [self.buffer is not None] of [decode] and [flush] always
    hold. *)
Theorem buffer_there_when_needed
  (encoding : option string) (self : t) (calls : list call) :
  init encoding = Ok self ->
  has_state (after_all self calls) = true.
Proof.
  intros Hinit.
  assert (H : has_state self = true).
  { unfold init in Hinit. destruct encoding as [name|].
    - destruct (getincrementaldecoder name); [|discriminate].
      injection Hinit as <-. reflexivity.
    - injection Hinit as <-. reflexivity. }
  clear Hinit. unfold after_all. revert self H.
  induction calls as [|c calls IH]; intros self H; [exact H|].
  cbn [fold_left]. apply IH, after_has_state, H.
Qed.

(** X17: when the detector has no guess (no encoding, or an empty name),
    the [decode] call that reaches 4096 buffered bytes raises [ValueError]
    and keeps every byte in the buffer, the decoder staying undetermined;
    and [flush] on a buffer that is not empty raises the same
    [ValueError]. *)
Theorem undetectable_content
  (det : UniversalDetector_t) (buf data : bytes) :
  let msg := "Unable to determine encoding of content"%string in
  (4096 <= length (buf ++ data) ->
   result_encoding (close (feed det data)) = None
   \/ result_encoding (close (feed det data)) = Some EmptyString ->
   decode (undetermined det buf) data
   = (undetermined (close (feed det data)) (buf ++ data), Raise (ValueError msg)))
  /\ (buf <> [] ->
      result_encoding (close det) = None
      \/ result_encoding (close det) = Some EmptyString ->
      flush (undetermined det buf)
      = (undetermined (close det) buf, Raise (ValueError msg))).
Proof.
  cbv zeta. split.
  - intros Hlen Hres. unfold decode, undetermined. cbn [decoder buffer detector].
    replace (4096 <=? length (buf ++ data)) with true
      by (symmetry; apply Nat.leb_le; exact Hlen).
    unfold _detector_result. cbn [decoder buffer detector].
    destruct Hres as [-> | ->]; reflexivity.
  - intros Hne Hres. unfold flush, undetermined. cbn [decoder buffer detector].
    destruct buf as [|b buf]; [congruence|]. cbn [length Nat.eqb].
    unfold _detector_result. cbn [decoder buffer detector].
    destruct Hres as [-> | ->]; reflexivity.
Qed.

End WithEngines.

Import Doubles.

(** A decoder made for "ascii", then a chunk, a chunk that is not ASCII
    (the call raises), another chunk and [flush]. *)
Lemma committed_for_good_witness :
  let self := {| decoder := Some {| sig := false; started := false |};
                 detector := UniversalDetector;
                 buffer := None |} in
  let calls := [Decode [x61]; Decode [xff]; Decode [x62]; Flush] in
  init (Some "ascii"%string) = Ok self
  /\ outcome (after self (Decode [x61])) (Decode [xff])
     = Raise (ValueError "codec can't decode byte: invalid start byte")
  /\ committed (after_all self calls) = true
  /\ detector (after_all self calls) = UniversalDetector
  /\ buffer (after_all self calls) = None.
Proof.
  cbv zeta. split; [reflexivity|]. split; [reflexivity|].
  exact (committed_for_good
           {| decoder := Some {| sig := false; started := false |};
              detector := UniversalDetector;
              buffer := None |}
           [Decode [x61]; Decode [xff]; Decode [x62]; Flush] eq_refl).
Defined.

(** No declared encoding; a body that opens with a byte order mark and
    holds a byte that is not UTF-8 (the call that commits raises), then
    another chunk and [flush]. *)
Lemma buffer_there_when_needed_witness :
  let calls := [Decode (BOM_UTF8 ++ [xff] ++ repeat x20 4092); Decode [x61]; Flush] in
  init None = Ok fresh
  /\ raises (fun _ => true) (outcome fresh (Decode (BOM_UTF8 ++ [xff] ++ repeat x20 4092)))
     = true
  /\ has_state (after_all fresh calls) = true.
Proof.
  cbv zeta. split; [reflexivity|]. split; [vm_compute; reflexivity|].
  exact (buffer_there_when_needed None fresh
           [Decode (BOM_UTF8 ++ [xff] ++ repeat x20 4092); Decode [x61]; Flush]
           eq_refl).
Defined.

End TextDecoderMore.

Module TextDecoderUndetectable.
Import TextDecoder MoreDoubles Doubles.

(** With a detector that never has a guess: 4096 bytes, and three bytes
    then [flush]. *)
Lemma undetectable_content_witness :
  let msg := "Unable to determine encoding of content"%string in
  let undetermined := @undetermined toy_codecs no_guess tt in
  @decode toy_codecs no_guess (undetermined []) (repeat x61 4096)
  = (undetermined (repeat x61 4096), Raise (ValueError msg))
  /\ @flush toy_codecs no_guess (undetermined [x61; x62; x63])
     = (undetermined [x61; x62; x63], Raise (ValueError msg)).
Proof.
  cbv zeta. split.
  - refine (proj1 (@TextDecoderMore.undetectable_content toy_codecs no_guess
                     tt [] (repeat x61 4096)) _ (or_introl eq_refl)).
    apply Nat.leb_le. vm_compute. reflexivity.
  - refine (proj2 (@TextDecoderMore.undetectable_content toy_codecs no_guess
                     tt [x61; x62; x63] []) _ (or_introl eq_refl)).
    discriminate.
Defined.

End TextDecoderUndetectable.
